(** * ClaraVerse python backend: authentication core, text chunking and
      similarity search

    A shallow embedding of

    - [py_backend/routes/vector_routes.py]: [chunk_text],
      [search_documents], [search_document_chunks] and the routes that add
      and delete documents;
    - [py_backend/auth/auth.py]: [AuthService] and
      [get_current_user_optional];
    - [py_backend/routes/auth_routes.py]: the routes;
    - [py_backend/routes/db_routes.py]: [validate_query];
    - [py_backend/main.py]: [format_chroma_filter];
    - [py_backend/db/models.py]: the [auth.users], [auth.sessions] and
      [auth.refresh_tokens] tables with their unique columns, and the
      [vectors] tables,

    followed by the properties of the specification that concern them and
    by further properties of the code. *)

From Stdlib Require Import ZArith QArith List String Ascii Lia.
From Stdlib Require Import Sorting.Sorted Sorting.Permutation.
From stdpp Require Import base option list strings gmap pretty.

Local Open Scope Z_scope.

(* ===================================================================== *)
(** * Part I: the chunking engine ([vector_routes.chunk_text])            *)
(* ===================================================================== *)

Module Chunker.

(** A Python [str] is a sequence of code points; the model keeps the code
    points below 256 ([ascii]). *)
Definition text := list ascii.

Definition len (t : text) : Z := Z.of_nat (length t).

(** Python's slice-index adjustment ([PySlice_AdjustIndices] with step 1,
    also the [ADJUST_INDICES] of [str.rfind]): a negative index counts from
    the end, and the result is clamped to [0, n]. *)
Definition adjust (n i : Z) : Z :=
  if i <? 0 then Z.max (i + n) 0 else Z.min i n.

(** [t[i:j]]. *)
Definition slice (t : text) (i j : Z) : text :=
  let a := adjust (len t) i in
  let b := adjust (len t) j in
  take (Z.to_nat (b - a)) (drop (Z.to_nat a) t).

(** Index of the last occurrence of [c] in [t], as a position in the string
    of which [t] is the part that starts at [base]; [-1] when there is none. *)
Fixpoint rfind_from (c : ascii) (t : text) (base : Z) : Z :=
  match t with
  | [] => -1
  | x :: t' =>
      let r := rfind_from c t' (base + 1) in
      if 0 <=? r then r else if Ascii.eqb x c then base else -1
  end.

(** [t.rfind(c, i, j)] for a one-character [c]. *)
Definition rfind (t : text) (c : ascii) (i j : Z) : Z :=
  let a := adjust (len t) i in
  let b := adjust (len t) j in
  rfind_from c (take (Z.to_nat (b - a)) (drop (Z.to_nat a) t)) a.

(** [str.isspace] on one code point below 256: TAB..CR, FS..US, SPACE,
    NEL and NBSP. *)
Definition isspace (c : ascii) : bool :=
  let n := Z.of_nat (nat_of_ascii c) in
  ((9 <=? n) && (n <=? 13)) || ((28 <=? n) && (n <=? 32))
  || (n =? 133) || (n =? 160).

Fixpoint lstrip (t : text) : text :=
  match t with
  | c :: t' => if isspace c then lstrip t' else t
  | [] => []
  end.

Definition rstrip (t : text) : text := rev (lstrip (rev t)).

(** [t.strip()]. *)
Definition strip (t : text) : text := rstrip (lstrip t).

Definition period : ascii := "."%char.
Definition newline : ascii := ascii_of_nat 10.

(** The value of [end] when the slice of one iteration is taken: the raw
    window boundary [start + chunk_size], moved back to just after the last
    period or newline of the window when the window does not reach the end
    of the text and that break point lies beyond
    [start + chunk_size - overlap]. *)
Definition window_end (t : text) (chunk_size overlap start : Z) : Z :=
  let end_ := start + chunk_size in
  if end_ <? len t then
    let last_period := rfind t period start end_ in
    let last_newline := rfind t newline start end_ in
    let break_point := Z.max last_period last_newline in
    if start + chunk_size - overlap <? break_point
    then break_point + 1
    else end_
  else end_.

(** [start = end - overlap], the last statement of the loop body. *)
Definition next_start (t : text) (chunk_size overlap start : Z) : Z :=
  window_end t chunk_size overlap start - overlap.

(** [chunks] after the body of the loop ran at [start]. *)
Definition push_chunk (t : text) (chunk_size overlap start : Z)
    (chunks : list text) : list text :=
  let chunk := strip (slice t start (window_end t chunk_size overlap start)) in
  match chunk with
  | [] => chunks
  | _ :: _ => chunks ++ [chunk]
  end.

(** The [while start < len(text)] loop.  The loop of the source need not
    terminate, so the iterations are counted: [None] means that [fuel]
    iterations did not reach the exit. *)
Fixpoint chunk_loop (fuel : nat) (t : text) (chunk_size overlap start : Z)
    (chunks : list text) : option (list text) :=
  match fuel with
  | O => None
  | S fuel' =>
      if start <? len t then
        chunk_loop fuel' t chunk_size overlap
          (next_start t chunk_size overlap start)
          (push_chunk t chunk_size overlap start chunks)
      else Some chunks
  end.

Definition chunk_text (fuel : nat) (t : text) (chunk_size overlap : Z)
    : option (list text) :=
  chunk_loop fuel t chunk_size overlap 0 [].

(** Two consecutive chunks share [k] characters of context: the last [k]
    characters of the first are the first [k] characters of the second. *)
Definition shares (k : nat) (c1 c2 : text) : Prop :=
  (k <= length c1)%nat /\ (k <= length c2)%nat /\
  drop (length c1 - k) c1 = take k c2.

(** A text with no sentence terminator and no white space. *)
Definition plain (t : text) : Prop :=
  Forall (fun c => c <> period /\ isspace c = false) t.

Definition letters (n : nat) : text := repeat "a"%char n.

(** A text on which the loop does not end when [chunk_size = 10] and
    [overlap = 8]. *)
Definition looping_text : text := list_ascii_of_string "aaa.aaaaaaaaaaaa".

End Chunker.

(* ===================================================================== *)
(** * Part II: the authentication core ([auth/auth.py], [db/models.py])   *)
(* ===================================================================== *)

Module Auth.

(** ** Time *)

(** [datetime.utcnow()]: microseconds since the epoch.  A request is served
    at one reading of the clock, the [now] that its operations take. *)
Definition datetime := Z.

Definition ACCESS_TOKEN_EXPIRE_MINUTES : Z := 7 * 24 * 60.
Definition REFRESH_TOKEN_EXPIRE_DAYS : Z := 30.

Definition timedelta_minutes (m : Z) : Z := m * 60 * 1000000.
Definition timedelta_days (d : Z) : Z := d * 86400 * 1000000.

(** The JSON NumericDate of a [datetime]: [jwt.encode] replaces a [datetime]
    under ["exp"] by [timegm(exp.utctimetuple())], whole seconds; [jwt.decode]
    reads the clock the same way. *)
Definition numeric_date (t : datetime) : Z := t / 1000000.

(** ** Claims and the two external libraries *)

Definition uuid := N.

(** The payload dictionary, with the four keys the code writes or reads.
    A key may be absent ([payload.get] gives [None]). *)
Record Payload := mkPayload {
  p_sub : option uuid;
  p_email : option string;
  p_exp : option Z;
  p_type : option string
}.

#[global] Instance Payload_eq_dec : EqDecision Payload.
Proof. solve_decision. Defined.

#[global] Instance Payload_countable : Countable Payload.
Proof.
  refine (inj_countable'
    (fun p => (p_sub p, p_email p, p_exp p, p_type p))
    (fun t => let '(a, b, c, d) := t in mkPayload a b c d) _).
  intros []; reflexivity.
Defined.

(** python-jose under [SECRET_KEY] and HS256: [jws_sign] is the compact
    serialization that [jwt.encode] returns, [jws_verify] the signature check
    and parse at the start of [jwt.decode]; it gives [None] where jose raises
    [JWTError].  A string signed with the key verifies to its payload. *)
Class TokenCodec := {
  jws_sign : Payload -> string;
  jws_verify : string -> option Payload;
  jws_verify_sign : forall p, jws_verify (jws_sign p) = Some p
}.

(** What bcrypt reads of a password: its first 72 bytes. *)
Definition bcrypt_input (password : string) : string :=
  substring 0 72 password.

(** passlib's [CryptContext(schemes=["bcrypt"])], by the contract the
    service relies on: a salted hash that verifies the password it was made
    from, and no password that differs from it within the 72 bytes that
    bcrypt reads. *)
Class CryptContext := {
  pwd_hash : N -> string -> string;
  pwd_verify : string -> string -> bool;
  pwd_verify_hash : forall salt pw, pwd_verify pw (pwd_hash salt pw) = true;
  pwd_verify_other : forall salt pw pw',
    bcrypt_input pw' <> bcrypt_input pw ->
    pwd_verify pw' (pwd_hash salt pw) = false
}.

(** ** Tables ([db/models.py]) *)

Record User := mkUser {
  u_id : uuid;                      (* primary key *)
  u_email : string;                 (* unique *)
  u_email_verified : bool;
  u_encrypted_password : string;
  u_created_at : datetime;
  u_updated_at : datetime;
  u_metadata : list (string * string)
}.

(** A row of [auth.sessions] or of [auth.refresh_tokens].  Both tables have a
    unique [token] column, the only column the code selects rows by: a table
    is the finite map from the token to the rest of the row.  The surrogate
    [id] and [created_at] columns are never read and are left out, and so
    is the length bound of [String(255)], which [Columns] adds. *)
Record Row := mkRow {
  user_id : uuid;                   (* foreign key to auth.users.id *)
  expires_at : datetime
}.

Record Store := mkStore {
  users : list User;
  sessions : gmap string Row;
  refresh_tokens : gmap string Row
}.

Definition empty_store : Store := mkStore [] ∅ ∅.

Inductive entity :=
  | AUser (u : User)
  | ASession (token : string) (r : Row)
  | ARefreshToken (token : string) (r : Row).

Definition user_by_id (s : Store) (i : uuid) : option User :=
  find (fun u => N.eqb (u_id u) i) (users s).

Definition user_by_email (s : Store) (e : string) : option User :=
  find (fun u => String.eqb (u_email u) e) (users s).

(** INSERT of one row: [None] is a violated constraint (primary key, unique
    column or foreign key). *)
Definition insert_entity (e : entity) (s : Store) : option Store :=
  match e with
  | AUser u =>
      match user_by_id s (u_id u), user_by_email s (u_email u) with
      | None, None => Some (mkStore (users s ++ [u]) (sessions s) (refresh_tokens s))
      | _, _ => None
      end
  | ASession t r =>
      match user_by_id s (user_id r), sessions s !! t with
      | Some _, None => Some (mkStore (users s) (<[t := r]> (sessions s)) (refresh_tokens s))
      | _, _ => None
      end
  | ARefreshToken t r =>
      match user_by_id s (user_id r), refresh_tokens s !! t with
      | Some _, None => Some (mkStore (users s) (sessions s) (<[t := r]> (refresh_tokens s)))
      | _, _ => None
      end
  end.

(** DELETE of one row; deleting a user cascades to the rows that refer to
    it. *)
Definition delete_entity (e : entity) (s : Store) : Store :=
  match e with
  | AUser u =>
      mkStore (List.filter (fun v => negb (N.eqb (u_id v) (u_id u))) (users s))
              (filter (fun kr => user_id kr.2 <> u_id u) (sessions s))
              (filter (fun kr => user_id kr.2 <> u_id u) (refresh_tokens s))
  | ASession t _ => mkStore (users s) (delete t (sessions s)) (refresh_tokens s)
  | ARefreshToken t _ => mkStore (users s) (sessions s) (delete t (refresh_tokens s))
  end.

Fixpoint insert_all (es : list entity) (s : Store) : option Store :=
  match es with
  | [] => Some s
  | e :: es' =>
      match insert_entity e s with
      | Some s' => insert_all es' s'
      | None => None
      end
  end.

Definition delete_all (es : list entity) (s : Store) : Store :=
  fold_left (fun acc e => delete_entity e acc) es s.

(** ** The SQLAlchemy session *)

(** [SessionLocal = sessionmaker(autocommit=False, autoflush=False, ...)]:
    the objects given to [db.add] and [db.delete] wait in the session until
    [db.commit()], and queries read the committed tables. *)
Record Db := mkDb {
  store : Store;
  new : list entity;
  deleted : list entity
}.

Inductive exn :=
  | HTTPException (status_code : Z) (detail : string) (www_authenticate : bool)
  | IntegrityError
  | DataError
  | ProgrammingError.

(** [str(e)] of an exception of the database driver. *)
Definition str_exn (e : exn) : string :=
  match e with
  | HTTPException _ detail _ => detail
  | IntegrityError => "IntegrityError"
  | DataError => "DataError"
  | ProgrammingError => "ProgrammingError"
  end.

Inductive result (A : Type) :=
  | Return (a : A)
  | Raise (e : exn).
Arguments Return {A} a.
Arguments Raise {A} e.

(** Computations on a session that may raise. *)
Definition M (A : Type) : Type := Db -> result A * Db.

Definition raise {A} (e : exn) : M A := fun db => (Raise e, db).

#[global] Instance M_ret : MRet M := fun A a db => (Return a, db).

#[global] Instance M_bind : MBind M := fun A B k m db =>
  match m db with
  | (Return a, db') => k a db'
  | (Raise e, db') => (Raise e, db')
  end.

Definition query {A} (q : Store -> A) : M A := fun db => (Return (q (store db)), db).

Definition db_add (e : entity) : M unit :=
  fun db => (Return tt, mkDb (store db) (new db ++ [e]) (deleted db)).

Definition db_delete (e : entity) : M unit :=
  fun db => (Return tt, mkDb (store db) (new db) (deleted db ++ [e])).

(** [db.commit()]: the flush emits the INSERTs of the pending objects and
    then the DELETEs, in one transaction.  A violated constraint raises and
    the transaction is rolled back. *)
Definition db_commit : M unit :=
  fun db =>
    match insert_all (new db) (store db) with
    | Some s' => (Return tt, mkDb (delete_all (deleted db) s') [] [])
    | None => (Raise IntegrityError, mkDb (store db) [] [])
    end.

(** One request: [get_db] opens a session on the database and closes it when
    the handler is done; what was not committed is dropped. *)
Definition request {A} (m : M A) (s : Store) : result A * Store :=
  let (r, db) := m (mkDb s [] []) in (r, store db).

(** ** [AuthService] ([auth/auth.py]) *)

(** What [create_session] returns. *)
Record UserView := mkUserView {
  v_id : uuid;
  v_email : string;
  v_email_verified : bool;
  v_created_at : datetime;
  v_updated_at : datetime;
  v_metadata : list (string * string)
}.

Record AuthResponse := mkAuthResponse {
  r_user : UserView;
  r_token : string;
  r_refreshToken : string
}.

Section AuthService.

Context `{!TokenCodec} `{!CryptContext}.

Definition verify_password (plain_password hashed_password : string) : bool :=
  pwd_verify plain_password hashed_password.

(** The salt is the random choice [pwd_context.hash] makes. *)
Definition get_password_hash (salt : N) (password : string) : string :=
  pwd_hash salt password.

(** [data] carries ["sub"] and ["email"]; ["exp"] and ["type"] are written
    over it.  [if expires_delta:] is false for [None] and for a zero
    [timedelta]. *)
Definition create_access_token (now : datetime) (data : Payload)
    (expires_delta : option Z) : string :=
  let expire :=
    match expires_delta with
    | Some d => if d =? 0
                then now + timedelta_minutes ACCESS_TOKEN_EXPIRE_MINUTES
                else now + d
    | None => now + timedelta_minutes ACCESS_TOKEN_EXPIRE_MINUTES
    end in
  jws_sign (mkPayload (p_sub data) (p_email data)
                      (Some (numeric_date expire)) (Some "access"%string)).

Definition create_refresh_token (now : datetime) (data : Payload) : string :=
  let expire := now + timedelta_days REFRESH_TOKEN_EXPIRE_DAYS in
  jws_sign (mkPayload (p_sub data) (p_email data)
                      (Some (numeric_date expire)) (Some "refresh"%string)).

(** [jwt.decode(token, SECRET_KEY, algorithms=[ALGORITHM])]: the signature,
    then the ["exp"] claim when there is one: [exp < now] is expired. *)
Definition jwt_decode (now : datetime) (token : string) : option Payload :=
  match jws_verify token with
  | Some p =>
      match p_exp p with
      | Some e => if e <? numeric_date now then None else Some p
      | None => Some p
      end
  | None => None
  end.

Definition decode_token (now : datetime) (token : string) : M Payload :=
  match jwt_decode now token with
  | Some payload => mret payload
  | None => raise (HTTPException 401 "Could not validate credentials" true)
  end.

(** [new_id] is the [uuid.uuid4()] default of the primary key; [now] is also
    the [func.now()] default of the two timestamps. *)
Definition create_user (now : datetime) (new_id : uuid) (salt : N)
    (email password : string) (metadata : option (list (string * string)))
    : M User :=
  existing_user ← query (fun s => user_by_email s email);
  match existing_user with
  | Some _ => raise (HTTPException 400 "User already exists" false)
  | None =>
      let hashed_password := get_password_hash salt password in
      let user := mkUser new_id email false hashed_password now now
                         (default [] metadata) in
      db_add (AUser user);;
      db_commit;;
      mret user
  end.

Definition authenticate_user (email password : string) : M (option User) :=
  user ← query (fun s => user_by_email s email);
  match user with
  | None => mret None
  | Some user =>
      if negb (verify_password password (u_encrypted_password user))
      then mret None
      else mret (Some user)
  end.

Definition user_view (user : User) : UserView :=
  mkUserView (u_id user) (u_email user) (u_email_verified user)
             (u_created_at user) (u_updated_at user) (u_metadata user).

Definition token_data (user : User) : Payload :=
  mkPayload (Some (u_id user)) (Some (u_email user)) None None.

Definition create_session (now : datetime) (user : User) : M AuthResponse :=
  let access_token := create_access_token now (token_data user) None in
  let refresh_token := create_refresh_token now (token_data user) in
  let access_expires := now + timedelta_minutes ACCESS_TOKEN_EXPIRE_MINUTES in
  let refresh_expires := now + timedelta_days REFRESH_TOKEN_EXPIRE_DAYS in
  db_add (ASession access_token (mkRow (u_id user) access_expires));;
  db_add (ARefreshToken refresh_token (mkRow (u_id user) refresh_expires));;
  db_commit;;
  mret (mkAuthResponse (user_view user) access_token refresh_token).

(** [.filter(T.token == token, T.expires_at > datetime.utcnow()).first()] *)
Definition live (now : datetime) (row : option Row) : option Row :=
  match row with
  | Some r => if now <? expires_at r then Some r else None
  | None => None
  end.

Definition get_current_user (now : datetime) (token : string) : M User :=
  payload ← decode_token now token;
  match p_sub payload with
  | None => raise (HTTPException 401 "Could not validate credentials" false)
  | Some uid =>
      session ← query (fun s => live now (sessions s !! token));
      match session with
      | None => raise (HTTPException 401 "Session expired or invalid" false)
      | Some _ =>
          user ← query (fun s => user_by_id s uid);
          match user with
          | None => raise (HTTPException 404 "User not found" false)
          | Some user => mret user
          end
      end
  end.

Definition refresh_access_token (now : datetime) (refresh_token : string)
    : M AuthResponse :=
  payload ← decode_token now refresh_token;
  if negb (bool_decide (p_type payload = Some "refresh"%string))
  then raise (HTTPException 401 "Invalid token type" false)
  else
    let uid := p_sub payload in
    db_refresh ← query (fun s => live now (refresh_tokens s !! refresh_token));
    match db_refresh with
    | None => raise (HTTPException 401 "Invalid or expired refresh token" false)
    | Some row =>
        user ← query (fun s => uid ≫= user_by_id s);
        match user with
        | None => raise (HTTPException 404 "User not found" false)
        | Some user =>
            db_delete (ARefreshToken refresh_token row);;
            create_session now user
        end
    end.

Definition logout (token : string) : M unit :=
  session ← query (fun s => sessions s !! token);
  match session with
  | Some row => db_delete (ASession token row);; db_commit
  | None => mret tt
  end.

(** ** Names for what the operations issue and write *)

Definition access_row (now : datetime) (user : User) : Row :=
  mkRow (u_id user) (now + timedelta_minutes ACCESS_TOKEN_EXPIRE_MINUTES).

Definition refresh_row (now : datetime) (user : User) : Row :=
  mkRow (u_id user) (now + timedelta_days REFRESH_TOKEN_EXPIRE_DAYS).

Definition access_of (now : datetime) (user : User) : string :=
  create_access_token now (token_data user) None.

Definition refresh_of (now : datetime) (user : User) : string :=
  create_refresh_token now (token_data user).

Definition issued (now : datetime) (user : User) : AuthResponse :=
  mkAuthResponse (user_view user) (access_of now user) (refresh_of now user).

(** The user row that [create_user] inserts. *)
Definition new_user (now : datetime) (new_id : uuid) (salt : N)
    (email password : string) (metadata : option (list (string * string)))
    : User :=
  mkUser new_id email false (get_password_hash salt password) now now
         (default [] metadata).

(** The store after a session was created for [user] at [now]. *)
Definition with_session (now : datetime) (user : User) (s : Store) : Store :=
  mkStore (users s)
          (<[access_of now user := access_row now user]> (sessions s))
          (<[refresh_of now user := refresh_row now user]> (refresh_tokens s)).

(** The store after [refresh_token] was rotated for [user] at [now]. *)
Definition rotated (now : datetime) (refresh_token : string) (user : User)
    (s : Store) : Store :=
  mkStore (users s)
          (<[access_of now user := access_row now user]> (sessions s))
          (delete refresh_token
             (<[refresh_of now user := refresh_row now user]>
                (refresh_tokens s))).

(** The conditions under which [refresh_access_token] gets to the commit
    and the commit is accepted. *)
Definition can_refresh (now : datetime) (refresh_token : string) (s : Store)
    (user : User) : Prop :=
  exists p row,
    jwt_decode now refresh_token = Some p /\
    p_type p = Some "refresh"%string /\
    refresh_tokens s !! refresh_token = Some row /\
    now < expires_at row /\
    p_sub p ≫= user_by_id s = Some user /\
    user_by_id s (u_id user) <> None /\
    sessions s !! access_of now user = None /\
    refresh_tokens s !! refresh_of now user = None.

(** What one run did to the store: all the writes of the operation, or
    none. *)
Definition all_or_nothing {A} (run : result A * Store) (before : Store)
    (written : Store -> Prop) : Prop :=
  (exists a, fst run = Return a /\ written (snd run)) \/
  (exists e, fst run = Raise e /\ snd run = before).

(** ** The routes ([routes/auth_routes.py]) *)

(** [except HTTPException: raise] followed by
    [except Exception as e: raise HTTPException(500, detail=str(e))]. *)
Definition except_exception {A} (m : M A) : M A :=
  fun db =>
    match m db with
    | (Raise (HTTPException c d h), db') => (Raise (HTTPException c d h), db')
    | (Raise e, db') => (Raise (HTTPException 500 (str_exn e) false), db')
    | (Return a, db') => (Return a, db')
    end.

Definition sign_up (now : datetime) (new_id : uuid) (salt : N)
    (email password : string) (metadata : option (list (string * string)))
    : M AuthResponse :=
  except_exception
    (user ← create_user now new_id salt email password metadata;
     create_session now user).

Definition sign_in (now : datetime) (email password : string)
    : M AuthResponse :=
  user ← authenticate_user email password;
  match user with
  | None => raise (HTTPException 401 "Invalid credentials" true)
  | Some user => create_session now user
  end.

Definition sign_out (token : string) : M string :=
  logout token;;
  mret "Successfully signed out"%string.

Definition validate_session (now : datetime) (token : string) : M UserView :=
  current_user ← get_current_user now token;
  mret (user_view current_user).

Definition refresh_token (now : datetime) (refreshToken : string)
    : M AuthResponse :=
  except_exception (refresh_access_token now refreshToken).

End AuthService.

(** The failures of the specification, by the status the route answers. *)
Definition Unauthenticated {A} (r : result A) : Prop :=
  exists detail hdr, r = Raise (HTTPException 401 detail hdr).

Definition NotFound {A} (r : result A) : Prop :=
  exists detail hdr, r = Raise (HTTPException 404 detail hdr).

Definition InvalidCredentials : exn :=
  HTTPException 401 "Invalid credentials" true.

(** ** A codec and a hasher to run the model on *)

Fixpoint bits_of_pos (q : positive) : string :=
  match q with
  | xH => EmptyString
  | xO q' => String "0"%char (bits_of_pos q')
  | xI q' => String "1"%char (bits_of_pos q')
  end.

Fixpoint pos_of_bits (s : string) : option positive :=
  match s with
  | EmptyString => Some xH
  | String c s' =>
      if Ascii.eqb c "0"%char then xO <$> pos_of_bits s'
      else if Ascii.eqb c "1"%char then xI <$> pos_of_bits s'
      else None
  end.

Lemma pos_of_bits_of_pos q : pos_of_bits (bits_of_pos q) = Some q.
Proof. induction q as [q IH|q IH|]; simpl; try rewrite IH; reflexivity. Qed.

(** Tokens written as the binary numeral of the payload's code. *)
#[local] Program Instance bits_codec : TokenCodec := {|
  jws_sign p := bits_of_pos (encode p);
  jws_verify t := pos_of_bits t ≫= decode
|}.
Next Obligation.
  intros p. simpl. rewrite pos_of_bits_of_pos. simpl. apply decode_encode.
Qed.

(** The hash is the salt character followed by the password. *)
#[local] Program Instance plain_hasher : CryptContext := {|
  pwd_hash salt pw := String (ascii_of_N salt) pw;
  pwd_verify pw h :=
    match h with
    | String _ rest => String.eqb rest pw
    | EmptyString => false
    end
|}.
Next Obligation. intros salt pw. simpl. apply String.eqb_refl. Qed.
Next Obligation.
  intros salt pw pw' Hne. simpl. apply String.eqb_neq.
  intros Heq. apply Hne. rewrite Heq. reflexivity.
Qed.

(** ** One account to run the model on *)

(** 2025-11-01 12:26:40 UTC, in microseconds. *)
Definition t0 : datetime := 1762000000000000.
Definition half_a_second : Z := 500000.
Definition one_minute : Z := 60000000.

Definition alice : User := new_user t0 1%N 7%N "a@x.com" "pw1" None.

Definition store1 : Store :=
  snd (request (sign_up t0 1%N 7%N "a@x.com" "pw1" None) empty_store).

End Auth.

(* ===================================================================== *)
(** * Part III: similarity search ([vector_routes.search_documents])      *)
(* ===================================================================== *)

Module Search.

Import Auth.

(** Numbers are exact rationals: the order and the arithmetic of the query
    are modelled, the rounding of [float] is not. *)
Definition vector := list Q.

(** A row of [vectors.embeddings]; [user_id] is nullable. *)
Record Embedding := mkEmbedding {
  e_id : N;
  e_user_id : option uuid;
  e_content : string;
  e_embedding : vector;
  e_metadata : list (string * string)
}.

Record SearchRequest := mkSearchRequest {
  query : string;
  limit : Z;
  threshold : Q
}.

Record SearchResult := mkSearchResult {
  sr_id : N;
  sr_content : string;
  sr_metadata : list (string * string);
  sr_distance : Q
}.

(** The collaborators of the route: the embedding provider
    ([create_embedding], which may fail) and the database with pgvector,
    which evaluates [<=>] and ORDER BY.  Of ORDER BY ... DESC the SQL
    contract is that the rows come back rearranged with the keys
    descending; nothing more. *)
Class VectorStore := {
  create_embedding : string -> option vector;
  cosine_distance : vector -> vector -> Q;
  order_by_desc : forall {A : Type}, (A -> Q) -> list A -> list A;
  order_by_perm : forall (A : Type) (key : A -> Q) (l : list A),
    Permutation (order_by_desc key l) l;
  order_by_sorted : forall (A : Type) (key : A -> Q) (l : list A),
    StronglySorted (fun a b => (key b <= key a)%Q) (order_by_desc key l)
}.

(** ** The statement text and its placeholders *)

Definition nl : string := String (ascii_of_nat 10) EmptyString.

(** The characters of a parameter name, [[\w\$]], among the ASCII
    characters, which are all that the statements of the routes contain. *)
Definition is_name_char (c : ascii) : bool :=
  let n := Z.of_nat (nat_of_ascii c) in
  ((48 <=? n) && (n <=? 57)) || ((65 <=? n) && (n <=? 90))
  || ((97 <=? n) && (n <=? 122)) || (n =? 95) || (n =? 36).

Definition backslash : ascii := ascii_of_nat 92.

(** The look-behind [(?<![:\w\$\x5c])] of a placeholder. *)
Definition bind_blocked (prev : option ascii) : bool :=
  match prev with
  | Some c => is_name_char c || Ascii.eqb c ":" || Ascii.eqb c backslash
  | None => false
  end.

Fixpoint skip_name (t : list ascii) : list ascii :=
  match t with
  | c :: t' => if is_name_char c then skip_name t' else t
  | [] => []
  end.

(** [text(statement)]: the compiler of SQLAlchemy turns a [:name] into a
    bound parameter where
    [BIND_PARAMS = (?<![:\w\$\x5c]):([\w\$]+)(?![:\w\$])] matches, and leaves
    the rest of the text as it is.  [unbound_from] finds a colon in front
    of a name that the pattern does not match because a colon follows the
    name, as in [:embedding::vector]; [prev] is the character before. *)
Fixpoint unbound_from (prev : option ascii) (t : list ascii) : bool :=
  match t with
  | [] => false
  | c :: t' =>
      (Ascii.eqb c ":" && negb (bind_blocked prev)
       && match t' with
          | d :: _ =>
              is_name_char d
              && match skip_name t' with
                 | e :: _ => Ascii.eqb e ":"
                 | [] => false
                 end
          | [] => false
          end)
      || unbound_from (Some c) t'
  end.

Definition unbound_placeholder (statement : string) : bool :=
  unbound_from None (list_ascii_of_string statement).

(** The triple-quoted text of [search_documents], line by line. *)
Definition select_embeddings : string :=
  String.concat nl
    [EmptyString;
     "        SELECT id, content, metadata, "%string;
     "               1 - (embedding <=> :embedding::vector) as similarity"%string;
     "        FROM vectors.embeddings"%string;
     "        WHERE 1 - (embedding <=> :embedding::vector) > :threshold"%string;
     "    "%string].

(** [query], after the two [query +=]. *)
Definition search_statement (current_user : option User) : string :=
  String.concat EmptyString
    [select_embeddings;
     match current_user with
     | Some _ => " AND user_id = :user_id"%string
     | None => EmptyString
     end;
     " ORDER BY similarity DESC LIMIT :limit"%string].

Section SearchDocuments.

Context `{!VectorStore}.

(** [1 - (embedding <=> :embedding::vector) as similarity] *)
Definition similarity (query_embedding : vector) (row : Embedding) : Q :=
  (1 - cosine_distance (e_embedding row) query_embedding)%Q.

(** The WHERE clause: the threshold, and [AND user_id = :user_id] when
    [current_user] is set. *)
Definition where_clause (query_embedding : vector) (threshold : Q)
    (current_user : option User) (row : Embedding) : bool :=
  negb (Qle_bool (similarity query_embedding row) threshold)
  && match current_user with
     | Some u => bool_decide (e_user_id row = Some (u_id u))
     | None => true
     end.

(** [db.execute(text(query), params)].  A placeholder that is left in the
    statement reaches PostgreSQL as a colon in front of a name, where its
    grammar has no expression, and the syntax error is raised as
    [ProgrammingError].  A statement with every placeholder bound is
    evaluated: the WHERE clause, ORDER BY and LIMIT, a negative LIMIT being
    an error of the database. *)
Definition execute (query_embedding : vector) (threshold : Q) (limit : Z)
    (current_user : option User) (table : list Embedding)
    : result (list Embedding) :=
  if unbound_placeholder (search_statement current_user)
  then Raise ProgrammingError
  else if limit <? 0 then Raise DataError
  else
    Return (take (Z.to_nat limit)
             (order_by_desc (similarity query_embedding)
                (List.filter (where_clause query_embedding threshold current_user)
                   table))).

Definition format_row (query_embedding : vector) (row : Embedding)
    : SearchResult :=
  mkSearchResult (e_id row) (e_content row) (e_metadata row)
                 (1 - similarity query_embedding row)%Q.

Definition search_documents (request : SearchRequest)
    (current_user : option User) (table : list Embedding)
    : result (list SearchResult) :=
  match create_embedding (query request) with
  | None => Raise (HTTPException 500 "Failed to create embedding" false)
  | Some query_embedding =>
      match execute query_embedding (threshold request) (limit request)
                    current_user table with
      | Raise e => Raise e
      | Return rows => Return (map (format_row query_embedding) rows)
      end
  end.

End SearchDocuments.

(** An engine to run the model on: insertion before the first row whose key
    is not larger, the rows taken in table order. *)
Fixpoint insert_desc {A} (key : A -> Q) (x : A) (l : list A) : list A :=
  match l with
  | [] => [x]
  | y :: l' =>
      if Qle_bool (key y) (key x) then x :: y :: l'
      else y :: insert_desc key x l'
  end.

Definition insertion_sort_desc {A} (key : A -> Q) (l : list A) : list A :=
  fold_left (fun acc x => insert_desc key x acc) l [].

Fixpoint dot (a b : vector) : Q :=
  match a, b with
  | x :: a', y :: b' => (x * y + dot a' b')%Q
  | _, _ => 0%Q
  end.

Lemma insert_desc_perm {A} (key : A -> Q) x l :
  Permutation (insert_desc key x l) (x :: l).
Proof.
  induction l as [|y l IH]; simpl; [reflexivity|].
  destruct (Qle_bool (key y) (key x)); [reflexivity|].
  rewrite IH. apply perm_swap.
Qed.

Lemma insertion_sort_desc_perm {A} (key : A -> Q) l :
  Permutation (insertion_sort_desc key l) l.
Proof.
  unfold insertion_sort_desc.
  assert (Hgen : forall acc,
            Permutation (fold_left (fun acc x => insert_desc key x acc) l acc)
                        (l ++ acc)).
  { induction l as [|x l IH]; intros acc; simpl; [reflexivity|].
    rewrite IH, insert_desc_perm. symmetry. apply Permutation_middle. }
  rewrite Hgen, app_nil_r. reflexivity.
Qed.

Lemma insert_desc_sorted {A} (key : A -> Q) x l :
  StronglySorted (fun a b => (key b <= key a)%Q) l ->
  StronglySorted (fun a b => (key b <= key a)%Q) (insert_desc key x l).
Proof.
  intros Hs. induction Hs as [|y l Hs IH Hall]; simpl.
  - constructor; constructor.
  - destruct (Qle_bool (key y) (key x)) eqn:Hle.
    + apply Qle_bool_iff in Hle.
      constructor; [constructor; assumption|].
      constructor; [exact Hle|].
      eapply Forall_impl; [exact Hall|].
      intros z Hz. simpl in Hz. eapply Qle_trans; eassumption.
    + constructor; [exact IH|].
      assert (Hxy : (key x <= key y)%Q).
      { apply Qlt_le_weak, Qnot_le_lt. intros Hyx.
        apply Qle_bool_iff in Hyx. congruence. }
      rewrite (insert_desc_perm key x l). constructor; assumption.
Qed.

Lemma insertion_sort_desc_sorted {A} (key : A -> Q) l :
  StronglySorted (fun a b => (key b <= key a)%Q) (insertion_sort_desc key l).
Proof.
  unfold insertion_sort_desc.
  assert (Hgen : forall acc,
            StronglySorted (fun a b => (key b <= key a)%Q) acc ->
            StronglySorted (fun a b => (key b <= key a)%Q)
              (fold_left (fun acc x => insert_desc key x acc) l acc)).
  { induction l as [|x l IH]; intros acc Hacc; simpl; [exact Hacc|].
    apply IH, insert_desc_sorted, Hacc. }
  apply Hgen. constructor.
Qed.

(** A database whose ORDER BY is the insertion sort above, with the cosine
    distance of unit vectors and a provider that embeds every query as
    (1, 0). *)
Definition insertion_engine : VectorStore := {|
  create_embedding := fun _ => Some [1%Q; 0%Q];
  cosine_distance := fun e q => (1 - dot e q)%Q;
  order_by_desc := @insertion_sort_desc;
  order_by_perm := @insertion_sort_desc_perm;
  order_by_sorted := @insertion_sort_desc_sorted
|}.

(** Three documents and a request to run the model on. *)
Definition doc_a : Embedding := mkEmbedding 1 None "a" [1%Q; 0%Q] [].
Definition doc_b : Embedding := mkEmbedding 2 None "b" [1%Q; 0%Q] [].
Definition doc_c : Embedding := mkEmbedding 3 None "c" [0%Q; 1%Q] [].

Definition tie_request : SearchRequest := mkSearchRequest "q" 5 (4 # 5).

End Search.

(* ===================================================================== *)
(** * Part IV: the rest of the authentication routes                      *)
(* ===================================================================== *)

Module AuthMore.

Import Auth.

(** ** Metadata dictionaries *)

(** The items of a Python [dict] of metadata, in insertion order. *)
Definition dict := list (string * string).

(** [d.get(k)] *)
Definition dict_get (k : string) (d : dict) : option string :=
  snd <$> find (fun kv => String.eqb (fst kv) k) d.

(** [d[k] = v]: the value of an existing key is replaced where the key
    stands, a new key goes to the end. *)
Fixpoint dict_set (k v : string) (d : dict) : dict :=
  match d with
  | [] => [(k, v)]
  | (k', v') :: d' =>
      if String.eqb k' k then (k, v) :: d' else (k', v') :: dict_set k v d'
  end.

(** [{**a, **b}] *)
Definition dict_merge (a b : dict) : dict :=
  fold_left (fun acc kv => dict_set (fst kv) (snd kv) acc) b a.

(** ** Writing a modified user *)

(** UPDATE of the row of [u'], found by its primary key. *)
Definition set_user (u' : User) (s : Store) : Store :=
  mkStore (map (fun u => if N.eqb (u_id u) (u_id u') then u' else u) (users s))
          (sessions s) (refresh_tokens s).

(** [db.commit()] when the session holds a user object whose attribute was
    assigned: the flush of [db_commit], with the UPDATE of that row in the
    same transaction.  [u'] is the row as the flush leaves it: the loaded
    row itself when the assignment changed nothing. *)
Definition db_commit_dirty (u' : User) : M unit :=
  fun db =>
    match db_commit db with
    | (Return _, db') => (Return tt, mkDb (set_user u' (store db')) [] [])
    | (Raise e, db') => (Raise e, db')
    end.

(** The user row after [current_user.metadata = {...}] and the commit.
    The flush compares the assigned value with the loaded one: when the
    merged dictionary equals the stored one no UPDATE is emitted and the
    row stays as it is; otherwise the UPDATE writes the merged metadata and
    [onupdate=func.now()] sets [updated_at].  The items of the merged
    dictionary stand where the stored ones stood, new keys behind them, so
    the two dictionaries are equal exactly when their items are. *)
Definition with_metadata (now : datetime) (u : User) (metadata : dict) : User :=
  let merged := dict_merge (u_metadata u) metadata in
  if bool_decide (merged = u_metadata u) then u
  else mkUser (u_id u) (u_email u) (u_email_verified u)
              (u_encrypted_password u) (u_created_at u) now merged.

Section Routes.

Context `{!TokenCodec}.

(** [auth.get_current_user_optional]: no credentials, or any
    [HTTPException] of [get_current_user], is [None]. *)
Definition get_current_user_optional (now : datetime)
    (credentials : option string) : M (option User) :=
  match credentials with
  | None => mret None
  | Some token =>
      fun db =>
        match get_current_user now token db with
        | (Return user, db') => (Return (Some user), db')
        | (Raise (HTTPException _ _ _), db') => (Return None, db')
        | (Raise e, db') => (Raise e, db')
        end
  end.

(** [auth_routes.update_user_metadata].  [user_id] is the path parameter:
    [Some i] when it is the text [str(i)] of a uuid, [None] for any other
    string.  [updated_at] has [onupdate=func.now()]. *)
Definition update_user_metadata (now : datetime) (token : string)
    (user_id : option uuid) (metadata : dict) : M UserView :=
  current_user ← get_current_user now token;
  if negb (bool_decide (Some (u_id current_user) = user_id))
  then raise (HTTPException 403 "Cannot update other user's metadata" false)
  else
    let updated := with_metadata now current_user metadata in
    db_commit_dirty updated;;
    mret (user_view updated).

End Routes.

(** The invariant of the three tables: the primary key and the email of a
    user are unique, and every session row and refresh token row refers to
    a user. *)
Definition consistent (s : Store) : Prop :=
  NoDup (map u_id (users s)) /\
  NoDup (map u_email (users s)) /\
  (forall t r, sessions s !! t = Some r -> user_by_id s (user_id r) <> None) /\
  (forall t r, refresh_tokens s !! t = Some r ->
     user_by_id s (user_id r) <> None).

(** 403, as the routes raise it. *)
Definition Forbidden {A} (r : result A) : Prop :=
  exists detail hdr, r = Raise (HTTPException 403 detail hdr).

End AuthMore.

(* ===================================================================== *)
(** * Part IV-b: the width of the columns ([db/models.py])                *)
(* ===================================================================== *)

(** [Auth] stores strings of any length.  The columns [token] of
    [auth.sessions] and [auth.refresh_tokens] and [email] of [auth.users]
    are [String(255)]: PostgreSQL refuses a longer value and the driver
    raises [DataError].  This part adds the bound to the flush and follows
    [sign_up] through it. *)
Module Columns.

Import Auth.

(** ** The length of a token *)

(** A JSON string without escapes: the characters between two quotes. *)
Definition json_string_length (s : string) : Z :=
  Z.of_nat (String.length s) + 2.

Definition decimal_length (n : Z) : Z := Z.of_nat (String.length (pretty n)).

(** [str(user.id)], the text of a uuid: 32 digits and 4 hyphens. *)
Definition uuid_text_length : Z := 36.

(** The members of the payload as
    [json.dumps(claims, separators=(",", ":"))] writes them, each with its
    quoted key and the colon. *)
Definition member_lengths (p : Payload) : list Z :=
  match p_sub p with
  | Some _ => [6 + (uuid_text_length + 2)]
  | None => []
  end ++
  match p_email p with
  | Some e => [8 + json_string_length e]
  | None => []
  end ++
  match p_exp p with
  | Some e => [6 + decimal_length e]
  | None => []
  end ++
  match p_type p with
  | Some t => [7 + json_string_length t]
  | None => []
  end.

(** The two braces, the members and the commas between them. *)
Definition json_length (p : Payload) : Z :=
  let members := member_lengths p in
  2 + fold_right Z.add 0 members + Z.max 0 (Z.of_nat (length members) - 1).

(** base64url without padding, of [n] bytes. *)
Definition b64_length (n : Z) : Z := (4 * n + 2) / 3.

(** The compact serialization: the header [{"alg":"HS256","typ":"JWT"}]
    (27 bytes), the payload and the HMAC-SHA256 signature (32 bytes), each
    in base64url, with two dots. *)
Definition jwt_length (p : Payload) : Z :=
  b64_length 27 + 1 + b64_length (json_length p) + 1 + b64_length 32.

Section Widths.

Context `{!TokenCodec} `{!CryptContext}.

(** The number of characters of a stored token.  The strings of the codec
    stand for the serializations of jose, whose length the payload
    determines; a string that is no token of the key counts as it is. *)
Definition token_length (token : string) : Z :=
  match jws_verify token with
  | Some p => jwt_length p
  | None => Z.of_nat (String.length token)
  end.

(** The value fits its [String(255)] column.  ([encrypted_password] is a
    bcrypt hash of 60 characters.) *)
Definition fits (e : entity) : bool :=
  match e with
  | AUser u => Z.of_nat (String.length (u_email u)) <=? 255
  | ASession token _ => token_length token <=? 255
  | ARefreshToken token _ => token_length token <=? 255
  end.

(** The INSERTs of the flush, in the order of [db.add]: the first row that
    the database refuses ends the flush, with [DataError] for a value that
    is too long and [IntegrityError] for a violated constraint. *)
Fixpoint insert_all (es : list entity) (s : Store) : result Store :=
  match es with
  | [] => Return s
  | e :: es' =>
      if negb (fits e) then Raise DataError
      else
        match insert_entity e s with
        | Some s' => insert_all es' s'
        | None => Raise IntegrityError
        end
  end.

(** [db.commit()], as [Auth.db_commit] with the widths checked. *)
Definition db_commit : M unit :=
  fun db =>
    match insert_all (new db) (store db) with
    | Return s' => (Return tt, mkDb (delete_all (deleted db) s') [] [])
    | Raise e => (Raise e, mkDb (store db) [] [])
    end.

(** [AuthService.create_user] *)
Definition create_user (now : datetime) (new_id : uuid) (salt : N)
    (email password : string) (metadata : option (list (string * string)))
    : M User :=
  existing_user ← query (fun s => user_by_email s email);
  match existing_user with
  | Some _ => raise (HTTPException 400 "User already exists" false)
  | None =>
      let hashed_password := get_password_hash salt password in
      let user := mkUser new_id email false hashed_password now now
                         (default [] metadata) in
      db_add (AUser user);;
      db_commit;;
      mret user
  end.

(** [AuthService.create_session] *)
Definition create_session (now : datetime) (user : User) : M AuthResponse :=
  let access_token := create_access_token now (token_data user) None in
  let refresh_token := create_refresh_token now (token_data user) in
  let access_expires := now + timedelta_minutes ACCESS_TOKEN_EXPIRE_MINUTES in
  let refresh_expires := now + timedelta_days REFRESH_TOKEN_EXPIRE_DAYS in
  db_add (ASession access_token (mkRow (u_id user) access_expires));;
  db_add (ARefreshToken refresh_token (mkRow (u_id user) refresh_expires));;
  db_commit;;
  mret (mkAuthResponse (user_view user) access_token refresh_token).

(** [auth_routes.sign_up] *)
Definition sign_up (now : datetime) (new_id : uuid) (salt : N)
    (email password : string) (metadata : option (list (string * string)))
    : M AuthResponse :=
  except_exception
    (user ← create_user now new_id salt email password metadata;
     create_session now user).

End Widths.

(** An address of 40 characters, and the account that signs up with it. *)
Definition long_email : string := "senior.verification.engineer@example.com".

Definition carol : User :=
  @new_user plain_hasher t0 3%N 5%N long_email "pw3" None.

End Columns.

(* ===================================================================== *)
(** * Part V: the document routes ([routes/vector_routes.py])             *)
(* ===================================================================== *)

Module Documents.

Import Chunker Auth AuthMore Search.

(** [chunk_text(content)] as the routes call it, with the defaults 1000 and
    200.  [len(text) + 1] iterations are enough for the loop to reach its
    exit with these parameters, so the second branch is never taken. *)
Definition chunk_text_default (content : string) : list string :=
  match chunk_text (S (String.length content))
                   (list_ascii_of_string content) 1000 200 with
  | Some chunks => map string_of_list_ascii chunks
  | None => []
  end.

(** A row of [vectors.documents]. *)
Record Document := mkDocument {
  d_id : N;
  d_user_id : option uuid;
  d_name : string;
  d_type : string;
  d_size : Z;
  d_content : string;
  d_metadata : dict
}.

(** A row of [vectors.document_chunks]. *)
Record DocumentChunk := mkDocumentChunk {
  c_id : N;
  c_document_id : N;
  c_chunk_index : nat;
  c_content : string;
  c_embedding : vector;
  c_metadata : dict
}.

Record VStore := mkVStore {
  embeddings : list Embedding;
  documents : list Document;
  document_chunks : list DocumentChunk
}.

Record DocumentRequest := mkDocumentRequest {
  dr_content : string;
  dr_metadata : dict
}.

Record LargeDocumentRequest := mkLargeDocumentRequest {
  lr_name : string;
  lr_content : string;
  lr_type : string;
  lr_metadata : dict
}.

(** The decimal text of a chunk index, for [{"chunk_index": i}]. *)
Definition index_metadata (i : nat) : dict :=
  [("chunk_index"%string, pretty i)].

(** INSERT into a table with a primary key. *)
Definition insert_row {A} (key : A -> N) (row : A) (table : list A)
    : option (list A) :=
  if existsb (fun r => N.eqb (key r) (key row)) table then None
  else Some (table ++ [row]).

Fixpoint insert_rows {A} (key : A -> N) (rows : list A) (table : list A)
    : option (list A) :=
  match rows with
  | [] => Some table
  | row :: rows' =>
      match insert_row key row table with
      | Some table' => insert_rows key rows' table'
      | None => None
      end
  end.

Section Routes.

Context `{!VectorStore} `{!TokenCodec}.

(** The 500 of [create_embedding]; its detail goes on with the text of the
    provider's exception, which is left out here as in [search_documents]. *)
Definition embedding_failed {A} : result A :=
  Raise (HTTPException 500 "Failed to create embedding" false).

(** [add_document].  [new_id] is the [uuid.uuid4()] default of the primary
    key.  The answer is the id of the stored row. *)
Definition add_document (new_id : N) (request : DocumentRequest)
    (current_user : User) (vs : VStore) : result N * VStore :=
  match create_embedding (dr_content request) with
  | None => (embedding_failed, vs)
  | Some embedding =>
      let doc := mkEmbedding new_id (Some (u_id current_user))
                   (dr_content request) embedding (dr_metadata request) in
      match insert_row e_id doc (embeddings vs) with
      | None => (Raise IntegrityError, vs)
      | Some table =>
          (Return new_id, mkVStore table (documents vs) (document_chunks vs))
      end
  end.

(** [delete_document]: the row is looked up by id and owner, and deleted by
    its primary key. *)
Definition delete_document (document_id : N) (current_user : User)
    (vs : VStore) : result string * VStore :=
  match find (fun r => N.eqb (e_id r) document_id
                       && bool_decide (e_user_id r = Some (u_id current_user)))
             (embeddings vs) with
  | None => (Raise (HTTPException 404 "Document not found" false), vs)
  | Some doc =>
      (Return "Document deleted successfully"%string,
       mkVStore (List.filter (fun r => negb (N.eqb (e_id r) (e_id doc)))
                             (embeddings vs))
                (documents vs) (document_chunks vs))
  end.

(** The [for i, chunk in enumerate(chunks)] loop of [add_large_document]:
    one embedding and one record per chunk, until an embedding fails.
    [chunk_id] gives the primary key drawn for the record at each index. *)
Fixpoint chunk_records (chunk_id : nat -> N) (document_id : N) (i : nat)
    (chunks : list string) : option (list DocumentChunk) :=
  match chunks with
  | [] => Some []
  | chunk :: chunks' =>
      match create_embedding chunk with
      | None => None
      | Some embedding =>
          cons (mkDocumentChunk (chunk_id i) document_id i chunk embedding
                                (index_metadata i))
            <$> chunk_records chunk_id document_id (S i) chunks'
      end
  end.

(** [add_large_document]: the document is flushed, the chunk records are
    added one by one, and everything is committed at the end; an exception
    on the way leaves the transaction uncommitted. *)
Definition add_large_document (new_id : N) (chunk_id : nat -> N)
    (request : LargeDocumentRequest) (current_user : User) (vs : VStore)
    : result N * VStore :=
  let doc := mkDocument new_id (Some (u_id current_user)) (lr_name request)
               (lr_type request)
               (Z.of_nat (String.length (lr_content request)))
               (lr_content request) (lr_metadata request) in
  match insert_row d_id doc (documents vs) with
  | None => (Raise IntegrityError, vs)
  | Some docs =>
      match chunk_records chunk_id new_id 0
              (chunk_text_default (lr_content request)) with
      | None => (embedding_failed, vs)
      | Some records =>
          match insert_rows c_id records (document_chunks vs) with
          | None => (Raise IntegrityError, vs)
          | Some chunks => (Return new_id, mkVStore (embeddings vs) docs chunks)
          end
      end
  end.

(** A row of the join of [search_document_chunks]. *)
Definition chunk_similarity (query_embedding : vector)
    (row : DocumentChunk * Document) : Q :=
  (1 - cosine_distance (c_embedding (fst row)) query_embedding)%Q.

(** [FROM vectors.document_chunks c JOIN vectors.documents d
     ON c.document_id = d.id] *)
Definition join_chunks (vs : VStore) : list (DocumentChunk * Document) :=
  flat_map (fun c =>
              map (pair c)
                  (List.filter (fun d => N.eqb (d_id d) (c_document_id c))
                               (documents vs)))
           (document_chunks vs).

Definition chunk_where_clause (query_embedding : vector) (threshold : Q)
    (current_user : option User) (row : DocumentChunk * Document) : bool :=
  negb (Qle_bool (chunk_similarity query_embedding row) threshold)
  && match current_user with
     | Some u => bool_decide (d_user_id (snd row) = Some (u_id u))
     | None => true
     end.

Record ChunkResult := mkChunkResult {
  cr_id : N;
  cr_content : string;
  cr_metadata : dict;
  cr_document_name : string;
  cr_distance : Q
}.

Definition format_chunk (query_embedding : vector)
    (row : DocumentChunk * Document) : ChunkResult :=
  mkChunkResult (c_id (fst row)) (c_content (fst row)) (c_metadata (fst row))
                (d_name (snd row))
                (1 - chunk_similarity query_embedding row)%Q.

(** The triple-quoted text of [search_document_chunks], line by line. *)
Definition select_chunks : string :=
  String.concat nl
    [EmptyString;
     "        SELECT "%string;
     "            c.id,"%string;
     "            c.content,"%string;
     "            c.metadata,"%string;
     "            d.name as document_name,"%string;
     "            1 - (c.embedding <=> :embedding::vector) as similarity"%string;
     "        FROM vectors.document_chunks c"%string;
     "        JOIN vectors.documents d ON c.document_id = d.id"%string;
     "        WHERE 1 - (c.embedding <=> :embedding::vector) > :threshold"%string;
     "    "%string].

(** [query], after the two [query +=]. *)
Definition chunk_search_statement (current_user : option User) : string :=
  String.concat EmptyString
    [select_chunks;
     match current_user with
     | Some _ => " AND d.user_id = :user_id"%string
     | None => EmptyString
     end;
     " ORDER BY similarity DESC LIMIT :limit"%string].

(** [search_document_chunks]: [db.execute(text(query), params)] as in
    [Search.execute], on the statement of this route. *)
Definition search_document_chunks (request : SearchRequest)
    (current_user : option User) (vs : VStore) : result (list ChunkResult) :=
  match create_embedding (query request) with
  | None => embedding_failed
  | Some q =>
      if unbound_placeholder (chunk_search_statement current_user)
      then Raise ProgrammingError
      else if limit request <? 0 then Raise DataError
      else
        Return (map (format_chunk q)
                  (take (Z.to_nat (limit request))
                     (order_by_desc (chunk_similarity q)
                        (List.filter
                           (chunk_where_clause q (threshold request)
                                               current_user)
                           (join_chunks vs)))))
  end.

End Routes.

(** [delete_large_document]: the document is looked up by id and owner and
    deleted by its primary key; its chunks go with it (the relationship has
    [cascade="all, delete-orphan"], the foreign key [ondelete="CASCADE"]). *)
Definition delete_large_document (document_id : N) (current_user : User)
    (vs : VStore) : result string * VStore :=
  match find (fun d => N.eqb (d_id d) document_id
                       && bool_decide (d_user_id d = Some (u_id current_user)))
             (documents vs) with
  | None => (Raise (HTTPException 404 "Document not found" false), vs)
  | Some doc =>
      (Return "Document deleted successfully"%string,
       mkVStore (embeddings vs)
         (List.filter (fun d => negb (N.eqb (d_id d) (d_id doc)))
                      (documents vs))
         (List.filter (fun c => negb (N.eqb (c_document_id c) (d_id doc)))
                      (document_chunks vs)))
  end.

(** The foreign key of [vectors.document_chunks]: every chunk belongs to a
    stored document. *)
Definition chunks_have_parent (vs : VStore) : Prop :=
  forall c, c ∈ document_chunks vs ->
    c_document_id c ∈ map d_id (documents vs).

End Documents.

(* ===================================================================== *)
(** * Part VI: the query filter ([routes/db_routes.py]) and the Chroma
      filter ([main.py])                                                  *)
(* ===================================================================== *)

Module DbRoutes.

Import Chunker.

(** [str.lower] on one code point below 256: A..Z and the capital letters
    of Latin-1. *)
Definition lower_char (c : ascii) : ascii :=
  let n := Z.of_nat (nat_of_ascii c) in
  if ((65 <=? n) && (n <=? 90)) || ((192 <=? n) && (n <=? 214))
     || ((216 <=? n) && (n <=? 222))
  then ascii_of_nat (Z.to_nat (n + 32)) else c.

Definition lower (t : text) : text := map lower_char t.

(** [t.startswith(p)] *)
Fixpoint startswith (p t : text) : bool :=
  match p, t with
  | [], _ => true
  | x :: p', y :: t' => Ascii.eqb x y && startswith p' t'
  | _ :: _, [] => false
  end.

(** [p in t] *)
Fixpoint contains (p t : text) : bool :=
  startswith p t ||
  match t with
  | [] => false
  | _ :: t' => contains p t'
  end.

Definition dangerous_keywords : list text :=
  map list_ascii_of_string
    ["drop"; "truncate"; "delete from auth"; "update auth";
     "insert into auth"]%string.

Definition validate_query (query : text) : bool :=
  let query_lower := strip (lower query) in
  if existsb (fun keyword => contains keyword query_lower) dangerous_keywords
  then false
  else if contains (list_ascii_of_string "auth.") query_lower
          && negb (startswith (list_ascii_of_string "select") query_lower)
  then false
  else true.

End DbRoutes.

Module Chroma.

(** The values of a filter dictionary: [None], a dictionary, or anything
    else (a string, a number, a list). *)
#[warnings="-register-all"]
Inductive value :=
  | VNone
  | VScalar (s : string)
  | VDict (d : gmap string value).

(** [op.startswith('$')] *)
Definition is_operator (op : string) : bool :=
  match op with
  | String c _ => Ascii.eqb c "$"%char
  | EmptyString => false
  end.

(** [any(op.startswith('$') for op in value.keys())] *)
Definition has_operator (d : gmap string value) : bool :=
  bool_decide (map_Exists (fun op _ => is_operator op = true) d).

Definition eq_filter (v : value) : value := VDict {[ "$eq"%string := v ]}.

(** One turn of the loop of [format_chroma_filter]: [None] when the key is
    skipped, else the value stored under the key. *)
Definition format_value (v : value) : option value :=
  match v with
  | VNone => None
  | VScalar _ => Some (eq_filter v)
  | VDict d =>
      if bool_decide (d = ∅) then None
      else if has_operator d then Some v
      else Some (eq_filter v)
  end.

Definition format_chroma_filter (filter_dict : option (gmap string value))
    : option (gmap string value) :=
  match filter_dict with
  | None => None
  | Some d =>
      if bool_decide (d = ∅) then None
      else
        let chroma_filter := omap format_value d in
        if bool_decide (chroma_filter = ∅) then None else Some chroma_filter
  end.

End Chroma.

(* ===================================================================== *)
(** * Part VII: what a chunk is, and data to run the routes on            *)
(* ===================================================================== *)

Module Pieces.

Import Chunker.

(** A piece of a text: some characters before it, some after. *)
Definition piece_of (c t : text) : Prop := exists pre post, t = pre ++ c ++ post.

(** What every chunk of the loop is, whatever the parameters. *)
Definition well_cut (t c : text) : Prop :=
  c <> [] /\ piece_of c t /\
  (forall x, head c = Some x -> isspace x = false) /\
  (forall x, last c = Some x -> isspace x = false).

(** Three sentences, cut with [chunk_size = 8] and [overlap = 2]. *)
Definition sentences : text := list_ascii_of_string "One. Two. Three.".

Definition second_chunk : text := list_ascii_of_string "wo. Thre".

(** A line of white space. *)
Definition blank_line : string := "   ".

End Pieces.

Module Examples.

Import Chunker Auth AuthMore Search Documents DbRoutes Chroma.

(** A second account, which never signs up in [store1]. *)
Definition bob : User :=
  @new_user plain_hasher t0 2%N 9%N "b@x.com" "pw2" None.

Definition dark_theme : dict := [("theme"%string, "dark"%string)].

(** The embeddings table with one document of each account. *)
Definition row_alice : Embedding :=
  mkEmbedding 1 (Some 1%N) "a note" [1%Q; 0%Q] [].
Definition row_bob : Embedding :=
  mkEmbedding 2 (Some 2%N) "b note" [1%Q; 0%Q] [].

Definition vstore1 : VStore := mkVStore [row_alice; row_bob] [] [].

Definition note_request : DocumentRequest := mkDocumentRequest "c note" [].


Definition memo_request : LargeDocumentRequest :=
  mkLargeDocumentRequest "memo.txt" "A memo." "text/plain" [].

(** One large document of the first account with two chunks, the second
    of them orthogonal to every query. *)
Definition report : Document :=
  mkDocument 10 (Some 1%N) "report.txt" "text/plain" 8 "One. Two" [].
Definition chunk_one : DocumentChunk :=
  mkDocumentChunk 11 10 0 "One." [1%Q; 0%Q] (index_metadata 0).
Definition chunk_two : DocumentChunk :=
  mkDocumentChunk 12 10 1 "Two" [0%Q; 1%Q] (index_metadata 1).

Definition vstore2 : VStore := mkVStore [] [report] [chunk_one; chunk_two].

(** A statement that hides a DROP behind a SELECT. *)
Definition drop_pre : text := list_ascii_of_string "SELECT 1; ".
Definition drop_word : text := list_ascii_of_string "Drop".
Definition drop_post : text := list_ascii_of_string " TABLE notes".

(** A filter with a plain value, an operator dictionary and a [None]. *)
Definition sample_filter : gmap string value :=
  {[ "source"%string := VScalar "manual";
     "page"%string := VDict {[ "$gt"%string := VScalar "3" ]};
     "draft"%string := VNone ]}.

End Examples.

(* ===================================================================== *)
(** * Properties of the chunking engine                                   *)
(* ===================================================================== *)

Section ChunkerFacts.

Import Chunker.

Lemma chunk_loop_exit fuel t cs ov start chunks :
  len t <= start ->
  chunk_loop (S fuel) t cs ov start chunks = Some chunks.
Proof.
  intros Hge. simpl. destruct (Z.ltb_spec start (len t)); [lia | reflexivity].
Qed.

Lemma chunk_loop_iter fuel t cs ov start chunks :
  start < len t ->
  chunk_loop (S fuel) t cs ov start chunks =
  chunk_loop fuel t cs ov (next_start t cs ov start)
             (push_chunk t cs ov start chunks).
Proof.
  intros Hlt. simpl. destruct (Z.ltb_spec start (len t)); [reflexivity | lia].
Qed.

(** A run that reached the exit is not changed by more fuel. *)
Lemma chunk_loop_more_fuel fuel fuel' t cs ov start chunks r :
  (fuel <= fuel')%nat ->
  chunk_loop fuel t cs ov start chunks = Some r ->
  chunk_loop fuel' t cs ov start chunks = Some r.
Proof.
  revert fuel' start chunks.
  induction fuel as [|fuel IH]; intros fuel' start chunks Hle Hrun.
  - discriminate.
  - destruct fuel' as [|fuel']; [lia|].
    simpl in *. destruct (start <? len t).
    + apply IH; [lia | exact Hrun].
    + exact Hrun.
Qed.

(** The cut is never moved back by more than [overlap - 2] characters:
    the break point is only taken beyond [start + chunk_size - overlap]. *)
Lemma window_end_lower t cs ov start :
  Z.min (start + cs) (start + cs - ov + 2) <= window_end t cs ov start.
Proof.
  unfold window_end.
  destruct (start + cs <? len t); [|lia].
  destruct (Z.ltb_spec (start + cs - ov)
              (Z.max (rfind t period start (start + cs))
                     (rfind t newline start (start + cs)))); lia.
Qed.

Lemma next_start_increases t cs ov start :
  ov < cs -> 2 * ov <= cs + 1 ->
  start < next_start t cs ov start.
Proof.
  intros H1 H2. unfold next_start.
  pose proof (window_end_lower t cs ov start). lia.
Qed.

Lemma chunk_loop_terminates t cs ov :
  ov < cs -> 2 * ov <= cs + 1 ->
  forall (n : nat) start chunks,
    len t - start <= Z.of_nat n ->
    exists r, forall fuel, (n < fuel)%nat ->
      chunk_loop fuel t cs ov start chunks = Some r.
Proof.
  intros H1 H2. induction n as [|n IH]; intros start chunks Hn.
  - exists chunks. intros [|fuel] Hf; [lia|]. apply chunk_loop_exit. lia.
  - destruct (Z.lt_ge_cases start (len t)) as [Hlt|Hge].
    + pose proof (next_start_increases t cs ov start H1 H2) as Hinc.
      destruct (IH (next_start t cs ov start)
                   (push_chunk t cs ov start chunks)) as [r Hr]; [lia|].
      exists r. intros [|fuel] Hf; [lia|].
      rewrite chunk_loop_iter by exact Hlt. apply Hr. lia.
    + exists chunks. intros [|fuel] Hf; [lia|]. apply chunk_loop_exit. lia.
Qed.

(** C2, as amended: with [overlap < chunk_size] and
    [2 * overlap <= chunk_size + 1], the start position strictly increases
    at every iteration, also when the cut is moved back to a period or a
    newline, and [chunk_text] terminates: every run of more than [len(text)]
    iterations reaches the exit with one and the same list of chunks. *)
Theorem chunk_text_terminates (t : text) (chunk_size overlap : Z) :
  overlap < chunk_size ->
  2 * overlap <= chunk_size + 1 ->
  (forall start, start < next_start t chunk_size overlap start) /\
  exists chunks, forall fuel, (length t < fuel)%nat ->
    chunk_text fuel t chunk_size overlap = Some chunks.
Proof.
  intros H1 H2. split.
  - intros start. apply next_start_increases; assumption.
  - destruct (chunk_loop_terminates t chunk_size overlap H1 H2
                (length t) 0 []) as [r Hr].
    + unfold len. lia.
    + exists r. exact Hr.
Qed.

(** The default parameters on a text of thirty letters. *)
Lemma chunk_text_terminates_witness :
  (200 < 1000 /\ 2 * 200 <= 1000 + 1) /\
  ((forall start, start < next_start (letters 30) 1000 200 start) /\
   exists chunks, forall fuel, (length (letters 30) < fuel)%nat ->
     chunk_text fuel (letters 30) 1000 200 = Some chunks).
Proof.
  split; [lia|]. apply (chunk_text_terminates (letters 30) 1000 200); lia.
Defined.

Lemma looping_text_cycle fuel chunks :
  chunk_loop fuel looping_text 10 8 (-8) chunks = None.
Proof.
  revert chunks. induction fuel as [|fuel IH]; intros chunks; [reflexivity|].
  rewrite chunk_loop_iter by (vm_compute; reflexivity).
  replace (next_start looping_text 10 8 (-8)) with (-8)
    by (vm_compute; reflexivity).
  apply IH.
Qed.

(** C2, as stated, fails: with [chunk_size = 10] and [overlap = 8] the cut at
    the period of ["aaa.aaaaaaaaaaaa"] puts the next start at [-4], below
    [0], and from there the loop never reaches its exit. *)
Lemma chunk_text_start_decreases :
  8 < 10 /\
  next_start looping_text 10 8 0 = -4 /\
  forall fuel, chunk_text fuel looping_text 10 8 = None.
Proof.
  split; [lia|]. split; [vm_compute; reflexivity|].
  intros [|[|fuel]]; try reflexivity.
  unfold chunk_text.
  rewrite chunk_loop_iter by (vm_compute; reflexivity).
  replace (next_start looping_text 10 8 0) with (-4)
    by (vm_compute; reflexivity).
  rewrite chunk_loop_iter by (vm_compute; reflexivity).
  replace (next_start looping_text 10 8 (-4)) with (-8)
    by (vm_compute; reflexivity).
  apply looping_text_cycle.
Qed.

(** The bound on [overlap] is the least one: with [chunk_size = 10] and
    [overlap = 6] the cut at the period of ["aaaaa.aaaaaaaaaa"] leaves the
    start where it was. *)
Lemma chunk_text_start_stalls :
  6 < 10 /\ next_start (list_ascii_of_string "aaaaa.aaaaaaaaaa") 10 6 0 = 0.
Proof. split; [lia | vm_compute; reflexivity]. Qed.

End ChunkerFacts.

Section ChunkerPlainText.

Import Chunker.

Lemma rfind_from_absent c l base :
  Forall (fun x => x <> c) l -> rfind_from c l base = -1.
Proof.
  revert base. induction l as [|x l IH]; intros base Hall; [reflexivity|].
  inversion Hall as [|? ? Hx Hl]; subst. simpl.
  rewrite IH by assumption. simpl.
  destruct (Ascii.eqb_spec x c); [contradiction | reflexivity].
Qed.

Lemma rfind_absent t c i j :
  Forall (fun x => x <> c) t -> rfind t c i j = -1.
Proof.
  intros Hall. unfold rfind. apply rfind_from_absent.
  apply Forall_take, Forall_drop, Hall.
Qed.

Lemma plain_no_period t : plain t -> Forall (fun x => x <> period) t.
Proof.
  intros Hp. eapply Forall_impl; [exact Hp|]. intros c [Hc _]. exact Hc.
Qed.

Lemma plain_no_newline t : plain t -> Forall (fun x => x <> newline) t.
Proof.
  intros Hp. eapply Forall_impl; [exact Hp|].
  intros c [_ Hc] ->. vm_compute in Hc. discriminate.
Qed.

Lemma window_end_plain t cs ov start :
  plain t -> -1 <= start + cs - ov ->
  window_end t cs ov start = start + cs.
Proof.
  intros Hp Hlow. unfold window_end.
  rewrite !rfind_absent by auto using plain_no_period, plain_no_newline.
  destruct (start + cs <? len t); [|reflexivity].
  destruct (Z.ltb_spec (start + cs - ov) (Z.max (-1) (-1))); [lia | reflexivity].
Qed.

Lemma lstrip_plain l : plain l -> lstrip l = l.
Proof.
  intros Hp. destruct l as [|c l]; [reflexivity|].
  inversion Hp as [|? ? [_ Hc] _]; subst. simpl. rewrite Hc. reflexivity.
Qed.

Lemma strip_plain l : plain l -> strip l = l.
Proof.
  intros Hp. unfold strip, rstrip. rewrite (lstrip_plain l Hp).
  rewrite lstrip_plain; [apply rev_involutive|].
  unfold plain. apply Forall_rev. exact Hp.
Qed.

Lemma slice_plain t i j : plain t -> plain (slice t i j).
Proof. intros Hp. unfold slice. apply Forall_take, Forall_drop, Hp. Qed.

Lemma slice_length t i j :
  0 <= i <= len t -> i <= j ->
  length (slice t i j) = Z.to_nat (Z.min j (len t) - i).
Proof.
  intros Hi Hj. unfold slice, adjust, len in *.
  destruct (Z.ltb_spec i 0); [lia|].
  destruct (Z.ltb_spec j 0); [lia|].
  rewrite length_take, length_drop. lia.
Qed.

Lemma push_chunk_plain t cs ov start chunks :
  plain t -> 0 <= start < len t -> 0 < cs -> -1 <= start + cs - ov ->
  push_chunk t cs ov start chunks = chunks ++ [slice t start (start + cs)].
Proof.
  intros Hp Hs Hcs Hlow. unfold push_chunk.
  rewrite window_end_plain by assumption.
  rewrite strip_plain by (apply slice_plain; exact Hp).
  pose proof (slice_length t start (start + cs)) as Hlen.
  destruct (slice t start (start + cs)) as [|c l]; [|reflexivity].
  simpl in Hlen. lia.
Qed.

Lemma chunk_loop_plain_iter fuel t cs ov start chunks :
  plain t -> 0 <= start < len t -> 0 < cs -> -1 <= start + cs - ov ->
  chunk_loop (S fuel) t cs ov start chunks =
  chunk_loop fuel t cs ov (start + cs - ov)
             (chunks ++ [slice t start (start + cs)]).
Proof.
  intros Hp Hs Hcs Hlow.
  rewrite chunk_loop_iter by lia.
  rewrite push_chunk_plain by assumption.
  unfold next_start. rewrite window_end_plain by assumption. reflexivity.
Qed.

(** No chunk that [chunk_text] returns is empty, whatever the text and the
    parameters: [if chunk:] guards the append. *)
Lemma chunk_loop_nonempty fuel t cs ov start chunks r :
  Forall (fun c => c <> []) chunks ->
  chunk_loop fuel t cs ov start chunks = Some r ->
  Forall (fun c => c <> []) r.
Proof.
  revert start chunks. induction fuel as [|fuel IH]; intros start chunks Hne Hrun.
  - discriminate.
  - simpl in Hrun. destruct (start <? len t).
    + eapply IH; [|exact Hrun]. unfold push_chunk.
      destruct (strip (slice t start (window_end t cs ov start))) eqn:E;
        [exact Hne|].
      apply Forall_app. split; [exact Hne|].
      constructor; [discriminate | constructor].
    + injection Hrun as <-. exact Hne.
Qed.

Lemma shares_slices t a b c :
  0 <= a <= b -> b <= c -> c <= len t ->
  forall d, c <= d ->
  shares (Z.to_nat (c - b)) (slice t a c) (slice t b d).
Proof.
  intros Hab Hbc Hct d Hcd. unfold shares.
  rewrite !slice_length by lia.
  split; [lia|]. split; [lia|].
  unfold slice, adjust, len in *.
  destruct (Z.ltb_spec a 0); [lia|].
  destruct (Z.ltb_spec b 0); [lia|].
  destruct (Z.ltb_spec c 0); [lia|].
  destruct (Z.ltb_spec d 0); [lia|].
  rewrite (Z.min_l a), (Z.min_l b), (Z.min_l c) by lia.
  rewrite take_take, skipn_firstn_comm, drop_drop.
  f_equal; [lia|]. f_equal. lia.
Qed.

End ChunkerPlainText.

Section ChunkerScenario.

Import Chunker.

Lemma slice_clamp t i j :
  0 <= i -> len t <= j -> slice t i j = slice t i (len t).
Proof.
  intros Hi Hj. unfold slice, adjust, len in *.
  destruct (Z.ltb_spec j 0); [lia|].
  destruct (Z.ltb_spec (Z.of_nat (length t)) 0); [lia|].
  f_equal. lia.
Qed.

(** C8, as amended: on a text of 2500 characters with no period, no newline
    and no other white space, [chunk_text(text, 1000, 200)] returns exactly
    the four chunks [text[0:1000]], [text[800:1800]], [text[1600:2600]] and
    [text[2400:3400]] (the last two end with the text).  Consecutive chunks
    share the 200, 200 and 100 characters where they meet, and none is
    empty. *)
Theorem chunk_text_2500_plain (t : text) :
  length t = 2500%nat ->
  plain t ->
  let c1 := slice t 0 1000 in
  let c2 := slice t 800 1800 in
  let c3 := slice t 1600 2600 in
  let c4 := slice t 2400 3400 in
  (forall fuel, (4 < fuel)%nat ->
     chunk_text fuel t 1000 200 = Some [c1; c2; c3; c4]) /\
  shares 200 c1 c2 /\ shares 200 c2 c3 /\ shares 100 c3 c4 /\
  Forall (fun c => c <> []) [c1; c2; c3; c4].
Proof.
  intros Hlen Hp c1 c2 c3 c4.
  assert (Hl : len t = 2500) by (unfold len; lia).
  assert (Hrun : forall fuel, (4 < fuel)%nat ->
            chunk_text fuel t 1000 200 = Some [c1; c2; c3; c4]).
  { intros fuel Hf.
    apply (chunk_loop_more_fuel 5); [lia|].
    unfold chunk_text.
    do 4 (rewrite chunk_loop_plain_iter by (try assumption; lia)).
    apply chunk_loop_exit. lia. }
  split; [exact Hrun|].
  split; [apply (shares_slices t 0 800 1000); lia|].
  split; [apply (shares_slices t 800 1600 1800); lia|].
  split.
  - unfold c3, c4. rewrite !(slice_clamp t _ _) by lia. rewrite Hl.
    apply (shares_slices t 1600 2400 2500); lia.
  - eapply (chunk_loop_nonempty 5); [constructor|]. apply (Hrun 5%nat). lia.
Qed.

Lemma letters_plain n : plain (letters n).
Proof.
  unfold plain, letters. apply Forall_forall. intros c Hc.
  apply list_elem_of_In, repeat_spec in Hc. subst c.
  split; [discriminate | reflexivity].
Qed.

(** The text of 2500 letters [a]. *)
Lemma chunk_text_2500_plain_witness :
  (length (letters 2500) = 2500%nat /\ plain (letters 2500)) /\
  chunk_text 5 (letters 2500) 1000 200 =
    Some [slice (letters 2500) 0 1000; slice (letters 2500) 800 1800;
          slice (letters 2500) 1600 2600; slice (letters 2500) 2400 3400].
Proof.
  split.
  - split; [apply repeat_length | apply letters_plain].
  - apply (chunk_text_2500_plain (letters 2500));
      [apply repeat_length | apply letters_plain | lia].
Defined.

(** C8, as stated, fails: the 2500 characters ["aaa...a"] are cut into four
    chunks, of 1000, 1000, 900 and 100 characters, and into four chunks by
    every run that reaches the exit. *)
Lemma chunk_text_2500_letters :
  length (letters 2500) = 2500%nat /\
  chunk_text 5 (letters 2500) 1000 200 =
    Some [letters 1000; letters 1000; letters 900; letters 100] /\
  forall fuel chunks,
    chunk_text fuel (letters 2500) 1000 200 = Some chunks ->
    length chunks = 4%nat /\ length chunks <> 3%nat.
Proof.
  split; [apply repeat_length|].
  assert (H5 : chunk_text 5 (letters 2500) 1000 200 =
               Some [letters 1000; letters 1000; letters 900; letters 100])
    by (vm_compute; reflexivity).
  split; [exact H5|].
  intros fuel chunks Hrun.
  apply (chunk_loop_more_fuel fuel (Nat.max fuel 5)) in Hrun; [|lia].
  apply (chunk_loop_more_fuel 5 (Nat.max fuel 5)) in H5; [|lia].
  unfold chunk_text in Hrun. rewrite H5 in Hrun.
  injection Hrun as <-. split; [reflexivity | discriminate].
Qed.

End ChunkerScenario.

(* ===================================================================== *)
(** * Properties of the authentication core                               *)
(* ===================================================================== *)

Section AuthFacts.

Import Auth.

Context `{!TokenCodec} `{!CryptContext}.

Ltac run :=
  unfold request, sign_in, sign_up, refresh_token, except_exception,
    validate_session, sign_out, logout, refresh_access_token,
    get_current_user, create_session, authenticate_user, create_user,
    decode_token, query, raise, db_add, db_delete, db_commit,
    mbind, M_bind, mret, M_ret; simpl.

Lemma store_eta s : mkStore (users s) (sessions s) (refresh_tokens s) = s.
Proof. destruct s; reflexivity. Qed.

(** [logout] in one request: the session row under the token is gone, and
    that is all. *)
Lemma logout_request (s : Store) (token : string) :
  request (logout token) s =
    (Return tt, mkStore (users s) (delete token (sessions s)) (refresh_tokens s)).
Proof.
  run. destruct (sessions s !! token) as [row|] eqn:E; simpl.
  - reflexivity.
  - rewrite delete_id by exact E. rewrite store_eta. reflexivity.
Qed.

(** C9: [logout] never raises, whatever the token and the store: it leaves
    the store without a session row under that token (deleting the row when
    there is one, expired or not), and a second call finds nothing and
    leaves the store as it is. *)
Theorem logout_idempotent (s : Store) (token : string) :
  let s' := mkStore (users s) (delete token (sessions s)) (refresh_tokens s) in
  request (logout token) s = (Return tt, s') /\
  (sessions s !! token = None -> s' = s) /\
  request (logout token) s' = (Return tt, s').
Proof.
  intros s'. split; [apply logout_request|]. split.
  - intros Hnone. unfold s'. rewrite delete_id by exact Hnone.
    apply store_eta.
  - rewrite logout_request. unfold s'. simpl.
    rewrite delete_delete_eq. reflexivity.
Qed.

(** The two outcomes of [create_session] on a session with nothing to
    insert before it: both rows are inserted and the pending deletions
    applied, or the commit raises and the store is as it was. *)
Lemma create_session_cases now user st del :
  (user_by_id st (u_id user) <> None /\
   sessions st !! access_of now user = None /\
   refresh_tokens st !! refresh_of now user = None /\
   create_session now user (mkDb st [] del) =
     (Return (issued now user),
      mkDb (delete_all del
              (mkStore (users st)
                 (<[access_of now user := access_row now user]> (sessions st))
                 (<[refresh_of now user := refresh_row now user]>
                    (refresh_tokens st))))
           [] []))
  \/
  ((user_by_id st (u_id user) = None \/
    sessions st !! access_of now user <> None \/
    refresh_tokens st !! refresh_of now user <> None) /\
   create_session now user (mkDb st [] del) =
     (Raise IntegrityError, mkDb st [] [])).
Proof.
  run. fold (access_of now user) (refresh_of now user).
  unfold user_by_id. simpl.
  destruct (find _ (users st)) as [u|] eqn:Eu; simpl.
  - destruct (sessions st !! access_of now user) as [r1|] eqn:Ea; simpl.
    + right. split; [right; left; discriminate | reflexivity].
    + rewrite Eu. simpl.
      destruct (refresh_tokens st !! refresh_of now user) as [r2|] eqn:Er; simpl.
      * right. split; [right; right; discriminate | reflexivity].
      * left. repeat split; try discriminate; reflexivity.
  - right. split; [left; reflexivity | reflexivity].
Qed.



Lemma jwt_decode_expired now token p e :
  jws_verify token = Some p -> p_exp p = Some e -> e < numeric_date now ->
  jwt_decode now token = None.
Proof.
  intros Hv He Hlt. unfold jwt_decode. rewrite Hv, He.
  destruct (Z.ltb_spec e (numeric_date now)); [reflexivity | lia].
Qed.

Lemma live_none now (row : option Row) :
  live now row = None <-> (forall r, row = Some r -> expires_at r <= now).
Proof.
  unfold live. destruct row as [r|].
  - destruct (Z.ltb_spec now (expires_at r)); split.
    + discriminate.
    + intros Hall. specialize (Hall r eq_refl). lia.
    + intros _ r' [= <-]. lia.
    + reflexivity.
  - split; [intros _ r' [=] | reflexivity].
Qed.

(** C5: [get_current_user] reads the store and never writes it, and
    - raises 401 when the token does not decode: [jws_verify] rejects it
      (bad signature, malformed) or its ["exp"] is before the clock, however
      well signed;
    - raises 401 when [auth.sessions] has no row under that exact token with
      [expires_at] after the clock;
    - raises 404 when the token decodes, such a row exists and ["sub"] is
      the id of no user;
    - returns the user whose id is ["sub"] otherwise.
    A payload that decodes without ["sub"] names no user and is answered
    401. *)
Theorem get_current_user_cases (now : datetime) (s : Store) (token : string) :
  let r := fst (request (get_current_user now token) s) in
  snd (request (get_current_user now token) s) = s /\
  (jws_verify token = None -> Unauthenticated r) /\
  (forall p e, jws_verify token = Some p -> p_exp p = Some e ->
     e < numeric_date now -> Unauthenticated r) /\
  ((forall row, sessions s !! token = Some row -> expires_at row <= now) ->
     Unauthenticated r) /\
  (forall p, jwt_decode now token = Some p -> p_sub p = None ->
     Unauthenticated r) /\
  (forall p uid row,
     jwt_decode now token = Some p -> p_sub p = Some uid ->
     sessions s !! token = Some row -> now < expires_at row ->
     match user_by_id s uid with
     | None => NotFound r
     | Some user => r = Return user /\ u_id user = uid
     end).
Proof.
  intros r.
  assert (Hdec : jwt_decode now token = None -> Unauthenticated r).
  { intros Hnone. unfold r. run. rewrite Hnone. simpl. do 2 eexists. reflexivity. }
  split; [|split; [|split; [|split; [|split]]]].
  - run. destruct (jwt_decode now token) as [p|]; simpl; [|reflexivity].
    destruct (p_sub p) as [uid|]; simpl; [|reflexivity].
    destruct (live now (sessions s !! token)); simpl; [|reflexivity].
    destruct (user_by_id s uid); reflexivity.
  - intros Hv. apply Hdec. unfold jwt_decode. rewrite Hv. reflexivity.
  - intros p e Hv He Hlt. apply Hdec. eapply jwt_decode_expired; eassumption.
  - intros Hrows. apply live_none in Hrows. unfold r. run.
    destruct (jwt_decode now token) as [p|]; simpl;
      [|do 2 eexists; reflexivity].
    destruct (p_sub p) as [uid|]; simpl; [|do 2 eexists; reflexivity].
    rewrite Hrows. simpl. do 2 eexists. reflexivity.
  - intros p Hp Hsub. unfold r. run. rewrite Hp. simpl. rewrite Hsub. simpl.
    do 2 eexists. reflexivity.
  - intros p uid row Hp Hsub Hrow Hlive. unfold r. run.
    rewrite Hp. simpl. rewrite Hsub. simpl. rewrite Hrow. simpl.
    destruct (Z.ltb_spec now (expires_at row)); [|lia]. simpl.
    destruct (user_by_id s uid) as [user|] eqn:Eu; simpl.
    + split; [reflexivity|].
      unfold user_by_id in Eu. apply find_some in Eu as [_ Heq].
      apply N.eqb_eq. exact Heq.
    + do 2 eexists. reflexivity.
Qed.


Lemma live_some now (row : option Row) r :
  live now row = Some r <-> row = Some r /\ now < expires_at r.
Proof.
  unfold live. destruct row as [r'|]; simpl;
    [|split; [intros [=] | intros [[=] _]]].
  destruct (Z.ltb_spec now (expires_at r')); split.
  - intros [= <-]. auto.
  - intros [[= <-] _]. reflexivity.
  - discriminate.
  - intros [[= <-] ?]. lia.
Qed.

(** The outcomes of [refresh_access_token] in a fresh session: it returns
    the new pair with the store rotated, or it raises 401, 404 or the
    integrity error of the commit with the store as it was. *)
Lemma refresh_cases now rt st :
  (exists user, can_refresh now rt st user /\
     refresh_access_token now rt (mkDb st [] []) =
       (Return (issued now user), mkDb (rotated now rt user st) [] []))
  \/
  (exists e, refresh_access_token now rt (mkDb st [] []) =
               (Raise e, mkDb st [] []) /\
     (forall user, ~ can_refresh now rt st user) /\
     (e = IntegrityError \/
      exists d h, e = HTTPException 401 d h \/ e = HTTPException 404 d h)).
Proof.
  unfold refresh_access_token, decode_token, query, raise, db_delete,
    mbind, M_bind, mret, M_ret. simpl.
  destruct (jwt_decode now rt) as [p|] eqn:Ep; simpl.
  2:{ right. eexists. split; [reflexivity|]. split; [|right; eauto].
      intros user (p & row & Hp & _). congruence. }
  destruct (bool_decide (p_type p = Some "refresh"%string)) eqn:Et; simpl.
  2:{ right. eexists. split; [reflexivity|]. split; [|right; eauto].
      intros user (p' & row & Hp & Hty & _).
      apply bool_decide_eq_false in Et. congruence. }
  apply bool_decide_eq_true in Et.
  destruct (live now (refresh_tokens st !! rt)) as [row|] eqn:El; simpl.
  2:{ right. eexists. split; [reflexivity|]. split; [|right; eauto].
      intros user (p' & row & _ & _ & Hrow & Hlt & _).
      assert (live now (refresh_tokens st !! rt) = Some row)
        by (apply live_some; auto).
      congruence. }
  apply live_some in El as [Hrow Hlt].
  assert (Hbind : option_bind uuid User (user_by_id st) (p_sub p) =
                  p_sub p ≫= user_by_id st) by reflexivity.
  destruct (option_bind uuid User (user_by_id st) (p_sub p))
    as [user|] eqn:Eu; simpl.
  2:{ right. eexists. split; [reflexivity|]. split; [|right; eauto].
      intros user (p' & row' & Hp & _ & _ & _ & Hu & _). congruence. }
  destruct (create_session_cases now user st [ARefreshToken rt row])
    as [(Hfk & Ha & Hr & Hrun) | (Hbad & Hrun)]; rewrite Hrun.
  - left. exists user. split; [|reflexivity].
    exists p, row. repeat split; assumption.
  - right. eexists. split; [reflexivity|]. split; [|left; reflexivity].
    intros user' (p' & row' & Hp & _ & _ & _ & Hu & Hfk & Ha & Hr).
    assert (user' = user) as -> by congruence.
    destruct Hbad as [?|[?|?]]; contradiction.
Qed.

Lemma refresh_request_ok now rt s user :
  can_refresh now rt s user ->
  request (refresh_access_token now rt) s =
    (Return (issued now user), rotated now rt user s).
Proof.
  intros Hcan. unfold request.
  destruct (refresh_cases now rt s) as [(u & Hu & Hrun) | (e & Hrun & Hno & _)].
  - rewrite Hrun. simpl.
    destruct Hcan as (p & row & Hp & _ & _ & _ & Hsub & _).
    destruct Hu as (p' & row' & Hp' & _ & _ & _ & Hsub' & _).
    assert (u = user) as -> by congruence. reflexivity.
  - exfalso. exact (Hno user Hcan).
Qed.

Lemma numeric_date_mono a b : a <= b -> numeric_date a <= numeric_date b.
Proof. intros Hle. unfold numeric_date. apply Z.div_le_mono; lia. Qed.

Lemma jwt_decode_refresh_of t_issue now user :
  now < t_issue + timedelta_days REFRESH_TOKEN_EXPIRE_DAYS ->
  jwt_decode now (refresh_of t_issue user) =
    Some (mkPayload (Some (u_id user)) (Some (u_email user))
            (Some (numeric_date
                     (t_issue + timedelta_days REFRESH_TOKEN_EXPIRE_DAYS)))
            (Some "refresh"%string)).
Proof.
  intros Hlt. unfold jwt_decode, refresh_of, create_refresh_token.
  rewrite jws_verify_sign. simpl.
  pose proof (numeric_date_mono now
                (t_issue + timedelta_days REFRESH_TOKEN_EXPIRE_DAYS)).
  destruct (Z.ltb_spec
              (numeric_date (t_issue + timedelta_days REFRESH_TOKEN_EXPIRE_DAYS))
              (numeric_date now)); [lia | reflexivity].
Qed.

(** Without a row under the token the refresh is answered 401, wherever it
    stops, and nothing is written. *)
Lemma refresh_without_row now rt st :
  refresh_tokens st !! rt = None ->
  Unauthenticated (fst (request (refresh_access_token now rt) st)) /\
  snd (request (refresh_access_token now rt) st) = st.
Proof.
  intros Hnone.
  unfold request, refresh_access_token, decode_token, query, raise,
    mbind, M_bind, mret, M_ret. simpl.
  destruct (jwt_decode now rt) as [p|]; simpl;
    [|split; [do 2 eexists|]; reflexivity].
  destruct (bool_decide _); simpl; [|split; [do 2 eexists|]; reflexivity].
  rewrite Hnone. simpl. split; [do 2 eexists|]; reflexivity.
Qed.

(** The first call of C1 on its own. *)
Lemma first_refresh_returns (s : Store) (t_issue now : datetime)
    (user : User) (row : Row) :
  refresh_tokens s !! refresh_of t_issue user = Some row ->
  now < expires_at row ->
  now < t_issue + timedelta_days REFRESH_TOKEN_EXPIRE_DAYS ->
  user_by_id s (u_id user) = Some user ->
  sessions s !! access_of now user = None ->
  refresh_tokens s !! refresh_of now user = None ->
  request (refresh_access_token now (refresh_of t_issue user)) s =
    (Return (issued now user), rotated now (refresh_of t_issue user) user s) /\
  refresh_of now user <> refresh_of t_issue user.
Proof.
  intros Hrow Hlive Hexp Huser Hfa Hfr.
  split; [|congruence].
  apply refresh_request_ok.
  exists (mkPayload (Some (u_id user)) (Some (u_email user))
            (Some (numeric_date
                     (t_issue + timedelta_days REFRESH_TOKEN_EXPIRE_DAYS)))
            (Some "refresh"%string)), row.
  split; [apply jwt_decode_refresh_of; exact Hexp|].
  simpl. rewrite Huser. repeat split; auto.
Qed.

(** C1, as amended.  Let a refresh token issued for [user] at [t_issue] be
    stored and unexpired at [now], [user] still exist, and the pair that
    the rotation mints at [now] be new to the two tables.  Then the first
    [refresh_access_token] returns that pair, the row of the consumed token
    is deleted and the two new rows are stored; and a second call with the
    same string, at any time, raises 401 and leaves the store as it is. *)
Theorem refresh_rotates_once (s : Store) (t_issue now : datetime)
    (user : User) (row : Row) :
  let rt := refresh_of t_issue user in
  let s' := rotated now rt user s in
  refresh_tokens s !! rt = Some row ->
  now < expires_at row ->
  now < t_issue + timedelta_days REFRESH_TOKEN_EXPIRE_DAYS ->
  user_by_id s (u_id user) = Some user ->
  sessions s !! access_of now user = None ->
  refresh_tokens s !! refresh_of now user = None ->
  request (refresh_access_token now rt) s = (Return (issued now user), s') /\
  refresh_tokens s' !! rt = None /\
  sessions s' !! access_of now user = Some (access_row now user) /\
  refresh_tokens s' !! refresh_of now user = Some (refresh_row now user) /\
  forall now2,
    Unauthenticated (fst (request (refresh_access_token now2 rt) s')) /\
    snd (request (refresh_access_token now2 rt) s') = s'.
Proof.
  intros rt s' Hrow Hlive Hexp Huser Hfa Hfr.
  assert (Hne : refresh_of now user <> rt) by congruence.
  assert (Hgone : refresh_tokens s' !! rt = None)
    by (unfold s', rotated; simpl; apply lookup_delete_eq).
  split; [|split; [exact Hgone|split; [|split]]].
  - apply (first_refresh_returns s t_issue now user row); assumption.
  - unfold s', rotated. simpl. apply lookup_insert_eq.
  - unfold s', rotated. simpl.
    rewrite lookup_delete_ne by congruence. apply lookup_insert_eq.
  - intros now2. apply refresh_without_row. exact Hgone.
Qed.


(** A refresh that succeeds still succeeds when a session row has been
    deleted first. *)
Lemma refresh_survives_logout (s : Store) (token : string) now rt resp s1 :
  request (refresh_access_token now rt) s = (Return resp, s1) ->
  exists s1',
    request (refresh_access_token now rt)
            (mkStore (users s) (delete token (sessions s)) (refresh_tokens s))
      = (Return resp, s1') /\
    users s1' = users s1 /\ refresh_tokens s1' = refresh_tokens s1.
Proof.
  intros Hrefresh.
  set (sl := mkStore (users s) (delete token (sessions s)) (refresh_tokens s)).
  unfold request in Hrefresh.
  destruct (refresh_cases now rt s) as [(user & Hcan & Hok) | (e & Hko & _)];
    [|rewrite Hko in Hrefresh; discriminate].
  rewrite Hok in Hrefresh. simpl in Hrefresh.
  injection Hrefresh as <- <-.
  exists (rotated now rt user sl). split; [|split; reflexivity].
  apply refresh_request_ok.
  destruct Hcan as (p & row & Hp & Hty & Hrow & Hlt & Hsub & Hfk & Ha & Hr).
  exists p, row. repeat split; try assumption.
  unfold sl. simpl. apply lookup_delete_None. right. exact Ha.
Qed.

(** C10: [logout] returns, and what it changes is the session row under its
    argument: the users, every refresh token row (the one issued with that
    session among them) and the session rows under other tokens are as they
    were.  So a [refresh_access_token] that succeeds before the logout
    succeeds after it, with the same answer. *)
Theorem logout_frame (s : Store) (token : string) :
  let s' := snd (request (logout token) s) in
  fst (request (logout token) s) = Return tt /\
  users s' = users s /\
  refresh_tokens s' = refresh_tokens s /\
  sessions s' !! token = None /\
  (forall t, t <> token -> sessions s' !! t = sessions s !! t) /\
  (forall now rt resp s1,
     request (refresh_access_token now rt) s = (Return resp, s1) ->
     exists s1',
       request (refresh_access_token now rt) s' = (Return resp, s1') /\
       users s1' = users s1 /\ refresh_tokens s1' = refresh_tokens s1).
Proof.
  intros s'. unfold s'. rewrite logout_request. simpl.
  split; [reflexivity|]. split; [reflexivity|]. split; [reflexivity|].
  split; [apply lookup_delete_eq|].
  split; [intros t Hne; apply lookup_delete_ne; congruence|].
  intros now rt resp s1. apply refresh_survives_logout.
Qed.

Lemma create_session_request now user s :
  (user_by_id s (u_id user) <> None /\
   sessions s !! access_of now user = None /\
   refresh_tokens s !! refresh_of now user = None /\
   request (create_session now user) s =
     (Return (issued now user), with_session now user s))
  \/
  ((user_by_id s (u_id user) = None \/
    sessions s !! access_of now user <> None \/
    refresh_tokens s !! refresh_of now user <> None) /\
   request (create_session now user) s = (Raise IntegrityError, s)).
Proof.
  unfold request.
  destruct (create_session_cases now user s [])
    as [(Hfk & Ha & Hr & Hrun) | (Hbad & Hrun)]; rewrite Hrun; simpl.
  - left. auto.
  - right. auto.
Qed.

(** The outcomes of [sign_in]. *)
Lemma sign_in_cases now email password s :
  match user_by_email s email with
  | None => request (sign_in now email password) s = (Raise InvalidCredentials, s)
  | Some user =>
      if verify_password password (u_encrypted_password user)
      then request (sign_in now email password) s =
           request (create_session now user) s
      else request (sign_in now email password) s = (Raise InvalidCredentials, s)
  end.
Proof.
  unfold request, sign_in, authenticate_user, query, raise,
    mbind, M_bind, mret, M_ret. simpl.
  destruct (user_by_email s email) as [user|]; simpl; [|reflexivity].
  destruct (verify_password password (u_encrypted_password user)); reflexivity.
Qed.

(** The operations that commit once.  [create_session], [sign_in],
    [refresh_access_token] and [logout]: a run either returns with all its row
    writes in the store -- the session row and the refresh token row
    together, and for a refresh the consumed row deleted with them -- or it
    raises and the store is as it was. *)
Theorem session_writes_atomic (now : datetime) (s : Store) :
  (forall user,
     all_or_nothing (request (create_session now user) s) s
       (fun s' => s' = with_session now user s /\
                  sessions s' !! access_of now user = Some (access_row now user) /\
                  refresh_tokens s' !! refresh_of now user =
                    Some (refresh_row now user))) /\
  (forall email password,
     all_or_nothing (request (sign_in now email password) s) s
       (fun s' => exists user, user_by_email s email = Some user /\
                               s' = with_session now user s)) /\
  (forall refresh_token,
     all_or_nothing (request (refresh_access_token now refresh_token) s) s
       (fun s' => exists user, s' = rotated now refresh_token user s)) /\
  (forall token,
     all_or_nothing (request (logout token) s) s
       (fun s' => s' = mkStore (users s) (delete token (sessions s))
                               (refresh_tokens s))).
Proof.
  assert (Hcs : forall user,
     all_or_nothing (request (create_session now user) s) s
       (fun s' => s' = with_session now user s /\
                  sessions s' !! access_of now user = Some (access_row now user) /\
                  refresh_tokens s' !! refresh_of now user =
                    Some (refresh_row now user))).
  { intros user.
    destruct (create_session_request now user s)
      as [(_ & _ & _ & Hrun) | (_ & Hrun)]; rewrite Hrun.
    - left. eexists. split; [reflexivity|]. simpl.
      split; [reflexivity|]. split; apply lookup_insert_eq.
    - right. eexists. split; reflexivity. }
  split; [exact Hcs|]. split; [|split].
  - intros email password.
    pose proof (sign_in_cases now email password s) as Hsi.
    destruct (user_by_email s email) as [user|] eqn:Eu.
    + destruct (verify_password password (u_encrypted_password user)).
      * rewrite Hsi.
        destruct (Hcs user) as [(a & Ha & Hw & _) | (e & He & Hs)].
        -- left. exists a. split; [exact Ha|]. exists user. auto.
        -- right. exists e. auto.
      * rewrite Hsi. right. eexists. split; reflexivity.
    + rewrite Hsi. right. eexists. split; reflexivity.
  - intros rt. unfold request.
    destruct (refresh_cases now rt s) as [(user & _ & Hrun) | (e & Hrun & _)];
      rewrite Hrun; simpl.
    + left. eexists. split; [reflexivity|]. exists user. reflexivity.
    + right. eexists. split; reflexivity.
  - intros token. rewrite logout_request.
    left. exists tt. split; reflexivity.
Qed.


Lemma find_app_none {A} (f : A -> bool) l x :
  find f l = None -> find f (l ++ [x]) = find f [x].
Proof.
  induction l as [|y l IH]; simpl; [reflexivity|].
  destruct (f y); [discriminate | exact IH].
Qed.

(** What a [sign_up] that returns has done. *)
Lemma sign_up_returns now new_id salt email password metadata s resp s1 :
  request (sign_up now new_id salt email password metadata) s
    = (Return resp, s1) ->
  let user := new_user now new_id salt email password metadata in
  user_by_email s email = None /\
  user_by_id s new_id = None /\
  resp = issued now user /\
  s1 = with_session now user
         (mkStore (users s ++ [user]) (sessions s) (refresh_tokens s)).
Proof.
  intros Hrun user. revert Hrun.
  unfold request, sign_up, except_exception, create_user, query, raise,
    db_add, db_commit, mbind, M_bind, mret, M_ret. simpl.
  destruct (user_by_email s email) as [u|] eqn:Ee; simpl; [discriminate|].
  destruct (user_by_id s new_id) as [u|] eqn:Ei; simpl; [discriminate|].
  fold (new_user now new_id salt email password metadata). fold user.
  rewrite Ee. simpl.
  destruct (create_session_cases now user
              (mkStore (users s ++ [user]) (sessions s) (refresh_tokens s)) [])
    as [(_ & _ & _ & Hcs) | (_ & Hcs)]; rewrite Hcs; simpl.
  - intros [= <- <-]. auto.
  - discriminate.
Qed.

Lemma access_of_same_second now now' user :
  numeric_date (now' + timedelta_minutes ACCESS_TOKEN_EXPIRE_MINUTES) =
  numeric_date (now + timedelta_minutes ACCESS_TOKEN_EXPIRE_MINUTES) ->
  access_of now' user = access_of now user.
Proof.
  intros Heq. unfold access_of, create_access_token. rewrite Heq. reflexivity.
Qed.

(** After a [sign_up] that returned: a [sign_in] with a password that
    differs from the password within the 72 bytes that bcrypt reads is
    refused as invalid credentials; a [sign_in] with the password returns a
    new pair when the strings it mints are not stored yet; and it raises the
    integrity error of the unique [token] column when its clock reading
    gives the same ["exp"] second as the sign-up's, where it mints the
    access token that is already stored. *)
Lemma sign_in_after_sign_up now new_id salt email password metadata s resp s1 :
  request (sign_up now new_id salt email password metadata) s
    = (Return resp, s1) ->
  let user := new_user now new_id salt email password metadata in
  (forall now' wrong_password,
     bcrypt_input wrong_password <> bcrypt_input password ->
     request (sign_in now' email wrong_password) s1
       = (Raise InvalidCredentials, s1)) /\
  (forall now',
     sessions s1 !! access_of now' user = None ->
     refresh_tokens s1 !! refresh_of now' user = None ->
     request (sign_in now' email password) s1
       = (Return (issued now' user), with_session now' user s1)) /\
  (forall now',
     numeric_date (now' + timedelta_minutes ACCESS_TOKEN_EXPIRE_MINUTES) =
     numeric_date (now + timedelta_minutes ACCESS_TOKEN_EXPIRE_MINUTES) ->
     request (sign_in now' email password) s1 = (Raise IntegrityError, s1)).
Proof.
  intros Hrun user.
  apply sign_up_returns in Hrun as (Hemail & Hid & -> & ->). fold user.
  set (s0 := mkStore (users s ++ [user]) (sessions s) (refresh_tokens s)).
  set (s1 := with_session now user s0).
  assert (Hby_email : user_by_email s1 email = Some user).
  { unfold user_by_email in *. simpl. rewrite find_app_none by exact Hemail.
    simpl. rewrite String.eqb_refl. reflexivity. }
  assert (Hby_id : user_by_id s1 (u_id user) = Some user).
  { unfold user_by_id in *. simpl. rewrite find_app_none by exact Hid.
    simpl. rewrite N.eqb_refl. reflexivity. }
  split; [|split].
  - intros now' wrong Hne.
    pose proof (sign_in_cases now' email wrong s1) as Hsi.
    rewrite Hby_email in Hsi. unfold verify_password in Hsi. simpl in Hsi.
    unfold get_password_hash in Hsi.
    rewrite pwd_verify_other in Hsi by exact Hne. exact Hsi.
  - intros now' Ha Hr.
    pose proof (sign_in_cases now' email password s1) as Hsi.
    rewrite Hby_email in Hsi. unfold verify_password in Hsi. simpl in Hsi.
    unfold get_password_hash in Hsi. rewrite pwd_verify_hash in Hsi.
    rewrite Hsi.
    destruct (create_session_request now' user s1)
      as [(_ & _ & _ & Hcs) | ([Hbad | [Hbad | Hbad]] & _)];
      [exact Hcs | congruence | contradiction | contradiction].
  - intros now' Hsame.
    pose proof (sign_in_cases now' email password s1) as Hsi.
    rewrite Hby_email in Hsi. unfold verify_password in Hsi. simpl in Hsi.
    unfold get_password_hash in Hsi. rewrite pwd_verify_hash in Hsi.
    rewrite Hsi.
    destruct (create_session_request now' user s1)
      as [(_ & Ha & _) | (_ & Hcs)]; [|exact Hcs].
    rewrite (access_of_same_second now now' user Hsame) in Ha.
    unfold s1, with_session in Ha. simpl in Ha.
    rewrite lookup_insert_eq in Ha. discriminate.
Qed.


Lemma jws_sign_inj p q : jws_sign p = jws_sign q -> p = q.
Proof.
  intros Heq. apply (f_equal jws_verify) in Heq.
  rewrite !jws_verify_sign in Heq. congruence.
Qed.

Lemma numeric_date_next_second a b d :
  a + 1000000 <= b -> numeric_date (a + d) < numeric_date (b + d).
Proof.
  intros Hle. unfold numeric_date.
  apply Z.lt_le_trans with ((a + d + 1000000) / 1000000).
  - replace (a + d + 1000000) with (a + d + 1 * 1000000) by lia.
    rewrite Z.div_add by lia. lia.
  - apply Z.div_le_mono; lia.
Qed.

Lemma access_of_later now now' user :
  now + 1000000 <= now' -> access_of now' user <> access_of now user.
Proof.
  intros Hle Heq. unfold access_of, create_access_token in Heq.
  apply jws_sign_inj in Heq. injection Heq as Heq.
  pose proof (numeric_date_next_second now now'
                (timedelta_minutes ACCESS_TOKEN_EXPIRE_MINUTES) Hle). lia.
Qed.

Lemma refresh_of_later now now' user :
  now + 1000000 <= now' -> refresh_of now' user <> refresh_of now user.
Proof.
  intros Hle Heq. unfold refresh_of, create_refresh_token in Heq.
  apply jws_sign_inj in Heq. injection Heq as Heq.
  pose proof (numeric_date_next_second now now'
                (timedelta_days REFRESH_TOKEN_EXPIRE_DAYS) Hle). lia.
Qed.

(** From issue to first use.  A pair is issued to a stored user at
    [t_issue]; nothing else happens; the refresh token comes back at [now],
    a second or more after the issue and before the expiry, and the strings
    minted at [now] were not stored before the issue either.  Then the
    refresh rotates. *)
Lemma refresh_after_issue (s s1 : Store) (t_issue now : datetime)
    (user : User) (resp : AuthResponse) :
  request (create_session t_issue user) s = (Return resp, s1) ->
  user_by_id s (u_id user) = Some user ->
  t_issue + 1000000 <= now ->
  now < t_issue + timedelta_days REFRESH_TOKEN_EXPIRE_DAYS ->
  sessions s !! access_of now user = None ->
  refresh_tokens s !! refresh_of now user = None ->
  request (refresh_access_token now (r_refreshToken resp)) s1 =
    (Return (issued now user), rotated now (r_refreshToken resp) user s1).
Proof.
  intros Hissue Huser Hlater Hexp Hfa Hfr.
  destruct (create_session_request t_issue user s)
    as [(_ & _ & _ & Hrun) | (_ & Hrun)];
    rewrite Hrun in Hissue; [|discriminate].
  injection Hissue as <- <-. simpl.
  apply (first_refresh_returns _ t_issue now user (refresh_row t_issue user)).
  - unfold with_session. simpl. apply lookup_insert_eq.
  - simpl. exact Hexp.
  - exact Hexp.
  - exact Huser.
  - unfold with_session. simpl.
    rewrite lookup_insert_ne; [exact Hfa|].
    intros Heq. symmetry in Heq. revert Heq. apply access_of_later, Hlater.
  - unfold with_session. simpl.
    rewrite lookup_insert_ne; [exact Hfr|].
    intros Heq. symmetry in Heq. revert Heq. apply refresh_of_later, Hlater.
Qed.

(** The same with a logout in between: the session of the pair is logged
    out, and the refresh token of the pair still rotates. *)
Lemma refresh_after_logout (s s1 : Store) (t_issue now : datetime)
    (user : User) (resp : AuthResponse) :
  request (create_session t_issue user) s = (Return resp, s1) ->
  user_by_id s (u_id user) = Some user ->
  t_issue + 1000000 <= now ->
  now < t_issue + timedelta_days REFRESH_TOKEN_EXPIRE_DAYS ->
  sessions s !! access_of now user = None ->
  refresh_tokens s !! refresh_of now user = None ->
  let s2 := snd (request (logout (r_token resp)) s1) in
  sessions s2 !! r_token resp = None /\
  fst (request (refresh_access_token now (r_refreshToken resp)) s2)
    = Return (issued now user).
Proof.
  intros Hissue Huser Hlater Hexp Hfa Hfr s2.
  unfold s2. rewrite logout_request. simpl.
  split; [apply lookup_delete_eq|].
  pose proof (refresh_after_issue s s1 t_issue now user resp
                Hissue Huser Hlater Hexp Hfa Hfr) as Hrun.
  destruct (refresh_survives_logout s1 (r_token resp) now
              (r_refreshToken resp) _ _ Hrun) as (s3 & Hrun' & _).
  rewrite Hrun'. reflexivity.
Qed.

End AuthFacts.

(* ===================================================================== *)
(** * One account, run on the binary codec                                *)
(* ===================================================================== *)

Section Scenario.

Import Auth.

#[local] Existing Instances bits_codec plain_hasher.

(** The sign-up of the account returns. *)
Lemma sign_up_alice :
  fst (request (sign_up t0 1%N 7%N "a@x.com" "pw1" None) empty_store) =
    Return (issued t0 alice).
Proof. vm_compute. reflexivity. Qed.

(** The account's refresh token, used a minute after its issue. *)
Lemma refresh_rotates_once_witness :
  request (refresh_access_token (t0 + one_minute) (refresh_of t0 alice)) store1
  = (Return (issued (t0 + one_minute) alice),
     rotated (t0 + one_minute) (refresh_of t0 alice) alice store1).
Proof.
  eapply proj1.
  apply (refresh_rotates_once store1 t0 (t0 + one_minute) alice
           (refresh_row t0 alice)); vm_compute; reflexivity.
Defined.

(** C1, as stated, fails: the refresh token issued to the account at [t0] is
    refused with 401 at its first use when that use comes 31 days later, and
    its first use within the second of its issue ends in the integrity error
    of the commit. *)
Lemma refresh_first_use_refused :
  fst (request (sign_up t0 1%N 7%N "a@x.com" "pw1" None) empty_store)
    = Return (issued t0 alice) /\
  fst (request (refresh_access_token (t0 + timedelta_days 31)
                  (refresh_of t0 alice)) store1)
    = Raise (HTTPException 401 "Could not validate credentials" true) /\
  fst (request (refresh_access_token (t0 + half_a_second)
                  (refresh_of t0 alice)) store1)
    = Raise IntegrityError.
Proof. vm_compute. repeat split; reflexivity. Qed.

(** C6 at its failing input: the account signs up at [t0] and signs in with
    the same credentials half a second later; [create_session] mints the
    access token of the sign-up again and the commit raises. *)
Lemma sign_in_same_second_raises :
  fst (request (sign_up t0 1%N 7%N "a@x.com" "pw1" None) empty_store)
    = Return (issued t0 alice) /\
  access_of (t0 + half_a_second) alice = access_of t0 alice /\
  sessions store1 !! access_of t0 alice = Some (access_row t0 alice) /\
  fst (request (sign_in (t0 + half_a_second) "a@x.com" "pw1") store1)
    = Raise IntegrityError.
Proof. vm_compute. repeat split; reflexivity. Qed.


(** The account signs in a minute after the sign-up, is validated with the
    new token, logs out, and is then refused. *)
Lemma validate_after_sign_in :
  let t1 := t0 + one_minute in
  let s2 := snd (request (sign_in t1 "a@x.com" "pw1") store1) in
  let s3 := snd (request (logout (access_of t1 alice)) s2) in
  fst (request (sign_in t1 "a@x.com" "pw1") store1) = Return (issued t1 alice) /\
  fst (request (get_current_user (t1 + one_minute) (access_of t1 alice)) s2)
    = Return alice /\
  fst (request (get_current_user (t1 + one_minute) (access_of t1 alice)) s3)
    = Raise (HTTPException 401 "Session expired or invalid" false) /\
  fst (request (refresh_access_token (t1 + one_minute) (refresh_of t1 alice)) s3)
    = Return (issued (t1 + one_minute) alice).
Proof. vm_compute. repeat split; reflexivity. Qed.

(** The account's access token, validated a minute after its issue. *)
Lemma get_current_user_cases_witness :
  fst (request (get_current_user (t0 + one_minute) (access_of t0 alice)) store1)
    = Return alice.
Proof.
  pose proof (get_current_user_cases (t0 + one_minute) store1
                (access_of t0 alice)) as Hcases.
  cbv zeta in Hcases. destruct Hcases as (_ & _ & _ & _ & _ & Hfound).
  specialize (Hfound
    (mkPayload (Some 1%N) (Some "a@x.com"%string)
       (Some (numeric_date
                (t0 + timedelta_minutes ACCESS_TOKEN_EXPIRE_MINUTES)))
       (Some "access"%string))
    1%N (access_row t0 alice)).
  assert (Huser : user_by_id store1 1%N = Some alice)
    by (vm_compute; reflexivity).
  rewrite Huser in Hfound.
  apply Hfound; vm_compute; reflexivity.
Defined.

(** The account logs out and then uses the refresh token of the same pair. *)
Lemma logout_frame_witness :
  let s2 := snd (request (logout (access_of t0 alice)) store1) in
  sessions s2 !! access_of t0 alice = None /\
  refresh_tokens s2 = refresh_tokens store1 /\
  exists s3,
    request (refresh_access_token (t0 + one_minute) (refresh_of t0 alice)) s2
      = (Return (issued (t0 + one_minute) alice), s3).
Proof.
  pose proof (logout_frame store1 (access_of t0 alice)) as Hframe.
  cbv zeta in Hframe.
  destruct Hframe as (_ & _ & Hrefresh & Hgone & _ & Hstill).
  split; [exact Hgone|]. split; [exact Hrefresh|].
  destruct (Hstill (t0 + one_minute) (refresh_of t0 alice)
              (issued (t0 + one_minute) alice)
              (rotated (t0 + one_minute) (refresh_of t0 alice) alice store1))
    as (s3 & Hrun & _).
  - eapply proj1.
    apply (first_refresh_returns store1 t0 (t0 + one_minute) alice
             (refresh_row t0 alice)); vm_compute; reflexivity.
  - exists s3. exact Hrun.
Defined.

End Scenario.

(* ===================================================================== *)
(** * Properties of the similarity search                                 *)
(* ===================================================================== *)

Section SearchFacts.

Import Auth Search.

Context `{!VectorStore}.

(** With or without the owner filter, the statement of [search_documents]
    keeps an unbound placeholder: [:embedding] is followed by the colons
    of the cast. *)
Lemma search_statement_unbound (current_user : option User) :
  unbound_placeholder (search_statement current_user) = true.
Proof. destruct current_user; vm_compute; reflexivity. Qed.

Lemma execute_raises query_embedding threshold limit current_user table :
  execute query_embedding threshold limit current_user table
    = Raise ProgrammingError.
Proof. unfold execute. rewrite search_statement_unbound. reflexivity. Qed.

(** [search_documents], case by case: the 500 of the embedding provider,
    or the syntax error of the statement. *)
Lemma search_documents_cases (request : SearchRequest)
    (current_user : option User) (table : list Embedding) :
  search_documents request current_user table =
    match create_embedding (query request) with
    | None => Raise (HTTPException 500 "Failed to create embedding" false)
    | Some _ => Raise ProgrammingError
    end.
Proof.
  unfold search_documents.
  destruct (create_embedding (query request)) as [q|]; [|reflexivity].
  rewrite execute_raises. reflexivity.
Qed.

Lemma search_documents_never_returns (request : SearchRequest)
    (current_user : option User) (table : list Embedding)
    (results : list SearchResult) :
  search_documents request current_user table <> Return results.
Proof.
  rewrite search_documents_cases.
  destruct (create_embedding (query request)); discriminate.
Qed.

End SearchFacts.

Section SearchEngine.

Import Auth Search.

(** C4 at its failing input: three stored documents, two of them at
    similarity 1 above the threshold 0.8, and a request for five results.
    The statement that the route sends has the placeholder [:embedding]
    in front of the cast [::vector], which [text] does not bind, so
    [db.execute] raises [ProgrammingError] and no list is returned; and so
    it is for every request, user, table, embedding provider and
    database. *)
Lemma search_documents_raises :
  unbound_placeholder (search_statement None) = true /\
  @search_documents insertion_engine tie_request None [doc_a; doc_c; doc_b]
    = Raise ProgrammingError /\
  (forall (engine : VectorStore) request current_user table results,
     @search_documents engine request current_user table <> Return results).
Proof.
  split; [apply search_statement_unbound|]. split.
  - rewrite search_documents_cases. reflexivity.
  - intros engine request current_user table results.
    apply search_documents_never_returns.
Qed.

End SearchEngine.

(* ===================================================================== *)
(** * Further properties of the authentication core                       *)
(* ===================================================================== *)

Section AuthMoreFacts.

Import Auth AuthMore.

Context `{!TokenCodec} `{!CryptContext}.

(** [get_current_user] in one request, case by case. *)
Lemma get_current_user_request now token s :
  request (get_current_user now token) s =
  (match jwt_decode now token with
   | None => Raise (HTTPException 401 "Could not validate credentials" true)
   | Some p =>
       match p_sub p with
       | None => Raise (HTTPException 401 "Could not validate credentials" false)
       | Some uid =>
           match live now (sessions s !! token) with
           | None => Raise (HTTPException 401 "Session expired or invalid" false)
           | Some _ =>
               match user_by_id s uid with
               | None => Raise (HTTPException 404 "User not found" false)
               | Some user => Return user
               end
           end
       end
   end, s).
Proof.
  unfold request, get_current_user, decode_token, query, raise,
    mbind, M_bind, mret, M_ret. simpl.
  destruct (jwt_decode now token) as [p|]; simpl; [|reflexivity].
  destruct (p_sub p) as [uid|]; simpl; [|reflexivity].
  destruct (live now (sessions s !! token)); simpl; [|reflexivity].
  destruct (user_by_id s uid); reflexivity.
Qed.

Lemma jwt_decode_access_of t now user :
  now < t + timedelta_minutes ACCESS_TOKEN_EXPIRE_MINUTES ->
  jwt_decode now (access_of t user) =
    Some (mkPayload (Some (u_id user)) (Some (u_email user))
            (Some (numeric_date
                     (t + timedelta_minutes ACCESS_TOKEN_EXPIRE_MINUTES)))
            (Some "access"%string)).
Proof.
  intros Hlt. unfold jwt_decode, access_of, create_access_token.
  rewrite jws_verify_sign. simpl.
  pose proof (numeric_date_mono now
                (t + timedelta_minutes ACCESS_TOKEN_EXPIRE_MINUTES)).
  destruct (Z.ltb_spec
              (numeric_date (t + timedelta_minutes ACCESS_TOKEN_EXPIRE_MINUTES))
              (numeric_date now)); [lia | reflexivity].
Qed.

Lemma find_app_some {A} (f : A -> bool) l l' x :
  find f l = Some x -> find f (l ++ l') = Some x.
Proof.
  induction l as [|y l IH]; simpl; [discriminate|].
  destruct (f y); [auto | exact IH].
Qed.

(** X3: the token that a [sign_up] returns is a valid bearer right away and
    for seven days: [get_current_user] answers it with the user row the
    sign-up created, and writes nothing. *)
Theorem sign_up_then_validate now new_id salt email password metadata
    (s s1 : Store) (resp : AuthResponse) (now' : datetime) :
  request (sign_up now new_id salt email password metadata) s
    = (Return resp, s1) ->
  now' < now + timedelta_minutes ACCESS_TOKEN_EXPIRE_MINUTES ->
  request (get_current_user now' (r_token resp)) s1 =
    (Return (new_user now new_id salt email password metadata), s1).
Proof.
  intros Hrun Hlt.
  apply sign_up_returns in Hrun as (Hemail & Hid & -> & ->).
  set (user := new_user now new_id salt email password metadata).
  rewrite get_current_user_request. simpl.
  fold (access_of now user).
  rewrite (jwt_decode_access_of now now' user Hlt). simpl.
  rewrite lookup_insert_eq. simpl.
  destruct (Z.ltb_spec now'
              (now + timedelta_minutes ACCESS_TOKEN_EXPIRE_MINUTES)); [|lia].
  unfold user_by_id in *. simpl.
  rewrite find_app_none by exact Hid. simpl.
  rewrite N.eqb_refl. reflexivity.
Qed.


(** X4: [refresh_access_token] never accepts an access token.  Whatever
    claims it was minted from, whenever it is presented and whatever the
    tables hold (a refresh token row under the same string included), the
    answer is 401 and nothing is written. *)
Theorem refresh_rejects_access_token (t now : datetime) (data : Payload)
    (expires_delta : option Z) (s : Store) :
  let token := create_access_token t data expires_delta in
  Unauthenticated (fst (request (refresh_access_token now token) s)) /\
  snd (request (refresh_access_token now token) s) = s.
Proof.
  intros token.
  unfold request, refresh_access_token, decode_token, query, raise,
    mbind, M_bind, mret, M_ret. simpl.
  destruct (jwt_decode now token) as [p|] eqn:Ep; simpl;
    [|split; [do 2 eexists|]; reflexivity].
  assert (Hty : p_type p = Some "access"%string).
  { unfold jwt_decode, token, create_access_token in Ep.
    rewrite jws_verify_sign in Ep. simpl in Ep.
    destruct (_ <? _) in Ep; [discriminate|].
    injection Ep as <-. reflexivity. }
  rewrite Hty. simpl. split; [do 2 eexists|]; reflexivity.
Qed.

(** X5: the lifetimes are hard limits.  From one second past seven days
    after it was minted, an access token is refused by [get_current_user],
    and from one second past thirty days a refresh token is refused by
    [refresh_access_token]: 401 whatever the tables hold, with nothing
    written. *)
Theorem tokens_expire (t now : datetime) (user : User) (s : Store) :
  (t + timedelta_minutes ACCESS_TOKEN_EXPIRE_MINUTES + 1000000 <= now ->
   request (get_current_user now (access_of t user)) s =
     (Raise (HTTPException 401 "Could not validate credentials" true), s)) /\
  (t + timedelta_days REFRESH_TOKEN_EXPIRE_DAYS + 1000000 <= now ->
   request (refresh_access_token now (refresh_of t user)) s =
     (Raise (HTTPException 401 "Could not validate credentials" true), s)).
Proof.
  split; intros Hlate.
  - rewrite get_current_user_request.
    rewrite (jwt_decode_expired now (access_of t user)
               (mkPayload (Some (u_id user)) (Some (u_email user))
                  (Some (numeric_date
                     (t + timedelta_minutes ACCESS_TOKEN_EXPIRE_MINUTES)))
                  (Some "access"%string))
               (numeric_date
                  (t + timedelta_minutes ACCESS_TOKEN_EXPIRE_MINUTES)));
      [reflexivity | | reflexivity |].
    + unfold access_of, create_access_token. apply jws_verify_sign.
    + simpl.
      pose proof (numeric_date_next_second
                    (t + timedelta_minutes ACCESS_TOKEN_EXPIRE_MINUTES)
                    now 0 Hlate) as Hn.
      rewrite !Z.add_0_r in Hn. exact Hn.
  - unfold request, refresh_access_token, decode_token, raise,
      mbind, M_bind, mret, M_ret. simpl.
    rewrite (jwt_decode_expired now (refresh_of t user)
               (mkPayload (Some (u_id user)) (Some (u_email user))
                  (Some (numeric_date
                     (t + timedelta_days REFRESH_TOKEN_EXPIRE_DAYS)))
                  (Some "refresh"%string))
               (numeric_date (t + timedelta_days REFRESH_TOKEN_EXPIRE_DAYS)));
      [reflexivity | | reflexivity |].
    + unfold refresh_of, create_refresh_token. apply jws_verify_sign.
    + simpl.
      pose proof (numeric_date_next_second
                    (t + timedelta_days REFRESH_TOKEN_EXPIRE_DAYS)
                    now 0 Hlate) as Hn.
      rewrite !Z.add_0_r in Hn. exact Hn.
Qed.

Lemma get_current_user_without_row now token s :
  sessions s !! token = None ->
  Unauthenticated (fst (request (get_current_user now token) s)).
Proof.
  intros Hnone. rewrite get_current_user_request, Hnone. simpl.
  destruct (jwt_decode now token) as [p|]; [|do 2 eexists; reflexivity].
  destruct (p_sub p); do 2 eexists; reflexivity.
Qed.

(** X9: [logout] revokes.  After [logout(token)], [get_current_user]
    refuses that token with 401 at any time, however valid its signature
    and its expiry still are. *)
Theorem logout_revokes (s : Store) (token : string) (now : datetime) :
  Unauthenticated
    (fst (request (get_current_user now token)
                  (snd (request (logout token) s)))).
Proof.
  rewrite logout_request. simpl.
  apply get_current_user_without_row. simpl. apply lookup_delete_eq.
Qed.


(** [sign_up] in one request, case by case.  The user row is committed by
    [create_user]; when the commit of [create_session] is refused after
    that, the row stays. *)
Lemma sign_up_request now new_id salt email password metadata s :
  let user := new_user now new_id salt email password metadata in
  let s0 := mkStore (users s ++ [user]) (sessions s) (refresh_tokens s) in
  request (sign_up now new_id salt email password metadata) s =
  match user_by_email s email with
  | Some _ => (Raise (HTTPException 400 "User already exists" false), s)
  | None =>
      match user_by_id s new_id with
      | Some _ => (Raise (HTTPException 500 "IntegrityError" false), s)
      | None =>
          match sessions s !! access_of now user,
                refresh_tokens s !! refresh_of now user with
          | None, None => (Return (issued now user), with_session now user s0)
          | _, _ => (Raise (HTTPException 500 "IntegrityError" false), s0)
          end
      end
  end.
Proof.
  intros user s0.
  unfold request, sign_up, except_exception, create_user, query, raise,
    db_add, db_commit, mbind, M_bind, mret, M_ret. simpl.
  destruct (user_by_email s email) as [u|] eqn:Ee; simpl; [reflexivity|].
  destruct (user_by_id s new_id) as [u|] eqn:Ei; simpl; [reflexivity|].
  fold (new_user now new_id salt email password metadata). fold user.
  rewrite Ee. simpl. fold s0.
  assert (Hfk : user_by_id s0 (u_id user) <> None).
  { unfold user_by_id in *. simpl. rewrite find_app_none by exact Ei.
    simpl. rewrite N.eqb_refl. discriminate. }
  destruct (create_session_cases now user s0 [])
    as [(_ & Ha & Hr & Hcs) | (Hbad & Hcs)]; rewrite Hcs; simpl in *.
  - rewrite Ha, Hr. reflexivity.
  - destruct Hbad as [Hbad | [Hbad | Hbad]]; [contradiction | |].
    + destruct (sessions s !! access_of now user); [reflexivity|contradiction].
    + destruct (sessions s !! access_of now user); [reflexivity|].
      destruct (refresh_tokens s !! refresh_of now user);
        [reflexivity | contradiction].
Qed.

(** X1: one account per email.  Once a [sign_up] has returned, every later
    [sign_up] with the same email -- any password, any metadata, at any
    time -- is answered 400 "User already exists" and writes nothing. *)
Theorem sign_up_twice now new_id salt email password metadata
    (s s1 : Store) (resp : AuthResponse)
    now' new_id' salt' password' metadata' :
  request (sign_up now new_id salt email password metadata) s
    = (Return resp, s1) ->
  request (sign_up now' new_id' salt' email password' metadata') s1
    = (Raise (HTTPException 400 "User already exists" false), s1).
Proof.
  intros Hrun.
  apply sign_up_returns in Hrun as (Hemail & Hid & -> & ->).
  rewrite sign_up_request.
  replace (user_by_email _ email)
    with (Some (new_user now new_id salt email password metadata));
    [reflexivity|].
  unfold user_by_email in *. simpl. rewrite find_app_none by exact Hemail.
  simpl. rewrite String.eqb_refl. reflexivity.
Qed.


Lemma user_by_id_none s i :
  user_by_id s i = None -> i ∉ map u_id (users s).
Proof.
  unfold user_by_id. intros Hnone Hin.
  apply list_elem_of_In, in_map_iff in Hin as (u & Hu & Hin).
  apply (find_none _ _ Hnone) in Hin. rewrite Hu, N.eqb_refl in Hin.
  discriminate.
Qed.

Lemma user_by_email_none s e :
  user_by_email s e = None -> e ∉ map u_email (users s).
Proof.
  unfold user_by_email. intros Hnone Hin.
  apply list_elem_of_In, in_map_iff in Hin as (u & Hu & Hin).
  apply (find_none _ _ Hnone) in Hin. rewrite Hu, String.eqb_refl in Hin.
  discriminate.
Qed.

Lemma user_by_id_app s u sess rts i :
  user_by_id s i <> None ->
  user_by_id (mkStore (users s ++ [u]) sess rts) i <> None.
Proof.
  unfold user_by_id. simpl. destruct (find _ (users s)) as [v|] eqn:E;
    [|contradiction].
  intros _. rewrite (find_app_some _ _ _ _ E). discriminate.
Qed.

Lemma consistent_add_user s u :
  consistent s ->
  user_by_id s (u_id u) = None ->
  user_by_email s (u_email u) = None ->
  consistent (mkStore (users s ++ [u]) (sessions s) (refresh_tokens s)).
Proof.
  intros (Hid & Hem & Hse & Hrt) Hi He. unfold consistent. simpl.
  rewrite !map_app. simpl. repeat split.
  - apply NoDup_app. split; [exact Hid|]. split; [|apply NoDup_singleton].
    intros x Hx Hx'. apply list_elem_of_singleton in Hx'. subst x.
    exact (user_by_id_none s _ Hi Hx).
  - apply NoDup_app. split; [exact Hem|]. split; [|apply NoDup_singleton].
    intros x Hx Hx'. apply list_elem_of_singleton in Hx'. subst x.
    exact (user_by_email_none s _ He Hx).
  - intros t r Hr. apply user_by_id_app. eapply Hse. exact Hr.
  - intros t r Hr. apply user_by_id_app. eapply Hrt. exact Hr.
Qed.

Lemma consistent_with_session now user s :
  consistent s -> user_by_id s (u_id user) <> None ->
  consistent (with_session now user s).
Proof.
  intros (Hid & Hem & Hse & Hrt) Hfk. unfold consistent, with_session. simpl.
  repeat split; try assumption.
  - intros t r Hr. apply lookup_insert_Some in Hr as [[_ <-] | [_ Hr]].
    + exact Hfk.
    + exact (Hse t r Hr).
  - intros t r Hr. apply lookup_insert_Some in Hr as [[_ <-] | [_ Hr]].
    + exact Hfk.
    + exact (Hrt t r Hr).
Qed.

Lemma consistent_delete s t t' :
  consistent s ->
  consistent (mkStore (users s) (delete t (sessions s))
                      (delete t' (refresh_tokens s))).
Proof.
  intros (Hid & Hem & Hse & Hrt). unfold consistent. simpl.
  repeat split; try assumption.
  - intros k r Hr. apply lookup_delete_Some in Hr as [_ Hr]. exact (Hse k r Hr).
  - intros k r Hr. apply lookup_delete_Some in Hr as [_ Hr]. exact (Hrt k r Hr).
Qed.

Lemma consistent_rotated now rt user s :
  consistent s -> user_by_id s (u_id user) <> None ->
  consistent (rotated now rt user s).
Proof.
  intros Hc Hfk.
  pose proof (consistent_with_session now user s Hc Hfk)
    as (Hid & Hem & Hse & Hrt).
  unfold consistent, rotated, with_session in *. simpl in *.
  repeat split; try assumption.
  intros k r Hr. apply lookup_delete_Some in Hr as [_ Hr]. exact (Hrt k r Hr).
Qed.

Lemma NoDup_map_eq {A B} (f : A -> B) (l : list A) x y :
  NoDup (map f l) -> In x l -> In y l -> f x = f y -> x = y.
Proof.
  induction l as [|a l IH]; simpl; intros Hnd Hx Hy Hf; [contradiction|].
  apply NoDup_cons in Hnd as [Hna Hnd].
  destruct Hx as [-> | Hx], Hy as [-> | Hy].
  - reflexivity.
  - exfalso. apply Hna. rewrite Hf. apply list_elem_of_In, in_map, Hy.
  - exfalso. apply Hna. rewrite <- Hf. apply list_elem_of_In, in_map, Hx.
  - apply IH; assumption.
Qed.

(** [update_user_metadata] in one request, case by case. *)
Lemma update_user_metadata_request now token user_id metadata s :
  request (update_user_metadata now token user_id metadata) s =
  match fst (request (get_current_user now token) s) with
  | Raise e => (Raise e, s)
  | Return u =>
      if bool_decide (Some (u_id u) = user_id)
      then (Return (user_view (with_metadata now u metadata)),
            set_user (with_metadata now u metadata) s)
      else (Raise (HTTPException 403 "Cannot update other user's metadata"
                     false), s)
  end.
Proof.
  unfold request, update_user_metadata, get_current_user, decode_token,
    query, raise, db_commit_dirty, db_commit, mbind, M_bind, mret, M_ret.
  simpl.
  destruct (jwt_decode now token) as [p|]; simpl; [|reflexivity].
  destruct (p_sub p) as [uid|]; simpl; [|reflexivity].
  destruct (live now (sessions s !! token)); simpl; [|reflexivity].
  destruct (user_by_id s uid) as [u|]; simpl; [|reflexivity].
  destruct (bool_decide (Some (u_id u) = user_id)); reflexivity.
Qed.

Lemma set_user_ids u' s :
  map u_id (users (set_user u' s)) = map u_id (users s).
Proof.
  unfold set_user. simpl. rewrite map_map. apply map_ext. intros v.
  destruct (N.eqb_spec (u_id v) (u_id u')); congruence.
Qed.

Lemma user_by_id_set_user u' s i :
  user_by_id s i <> None -> user_by_id (set_user u' s) i <> None.
Proof.
  unfold user_by_id, set_user. simpl.
  induction (users s) as [|v l IH]; simpl; [auto|].
  destruct (N.eqb_spec (u_id v) (u_id u')) as [Heq|Hne].
  - destruct (N.eqb_spec (u_id v) i) as [Hi|Hi].
    + intros _. rewrite <- Heq, Hi, N.eqb_refl. discriminate.
    + intros H'. destruct (N.eqb_spec (u_id u') i); [congruence|]. auto.
  - destruct (N.eqb (u_id v) i); [discriminate | exact IH].
Qed.

(** The columns that the UPDATE of the metadata does not touch. *)
Lemma with_metadata_keeps now u metadata :
  u_id (with_metadata now u metadata) = u_id u /\
  u_email (with_metadata now u metadata) = u_email u /\
  u_encrypted_password (with_metadata now u metadata)
    = u_encrypted_password u /\
  u_created_at (with_metadata now u metadata) = u_created_at u.
Proof.
  unfold with_metadata.
  destruct (bool_decide (dict_merge (u_metadata u) metadata = u_metadata u));
    simpl; auto.
Qed.

Lemma consistent_set_user now u metadata s :
  consistent s -> In u (users s) ->
  consistent (set_user (with_metadata now u metadata) s).
Proof.
  intros (Hid & Hem & Hse & Hrt) Hin. unfold consistent.
  rewrite set_user_ids. repeat split; try assumption.
  - replace (map u_email (users (set_user (with_metadata now u metadata) s)))
      with (map u_email (users s)); [exact Hem|].
    destruct (with_metadata_keeps now u metadata) as (Hkid & Hkem & _).
    unfold set_user. simpl. rewrite map_map. apply map_ext_in. intros v Hv.
    rewrite Hkid.
    destruct (N.eqb_spec (u_id v) (u_id u)) as [Heq|]; [|reflexivity].
    rewrite Hkem, (NoDup_map_eq u_id (users s) v u Hid Hv Hin Heq).
    reflexivity.
  - intros t r Hr. apply user_by_id_set_user. exact (Hse t r Hr).
  - intros t r Hr. apply user_by_id_set_user. exact (Hrt t r Hr).
Qed.

(** X2: the requests keep the tables consistent.  From a store in which ids
    and emails are unique and every session row and refresh token row
    refers to a user, each of [sign_up], [sign_in],
    [refresh_access_token], [logout] and [update_user_metadata] ends --
    returning or raising -- in a store that is consistent again. *)
Theorem auth_requests_keep_consistent (s : Store) :
  consistent s ->
  (forall now new_id salt email password metadata,
     consistent (snd (request
       (sign_up now new_id salt email password metadata) s))) /\
  (forall now email password,
     consistent (snd (request (sign_in now email password) s))) /\
  (forall now rt,
     consistent (snd (request (refresh_access_token now rt) s))) /\
  (forall token, consistent (snd (request (logout token) s))) /\
  (forall now token user_id metadata,
     consistent (snd (request
       (update_user_metadata now token user_id metadata) s))).
Proof.
  intros Hc. split; [|split; [|split; [|split]]].
  - intros now new_id salt email password metadata.
    rewrite sign_up_request.
    set (user := new_user now new_id salt email password metadata).
    destruct (user_by_email s email) eqn:Ee; [exact Hc|].
    destruct (user_by_id s new_id) eqn:Ei; [exact Hc|].
    assert (Hc0 : consistent
              (mkStore (users s ++ [user]) (sessions s) (refresh_tokens s)))
      by (apply consistent_add_user; assumption).
    destruct (sessions s !! access_of now user); [exact Hc0|].
    destruct (refresh_tokens s !! refresh_of now user); [exact Hc0|].
    simpl. apply consistent_with_session; [exact Hc0|].
    unfold user_by_id in *. simpl. rewrite find_app_none by exact Ei.
    simpl. rewrite N.eqb_refl. discriminate.
  - intros now email password.
    pose proof (sign_in_cases now email password s) as Hsi.
    destruct (user_by_email s email) as [user|]; [|rewrite Hsi; exact Hc].
    destruct (verify_password password (u_encrypted_password user));
      rewrite Hsi; [|exact Hc].
    destruct (create_session_request now user s)
      as [(Hfk & _ & _ & Hrun) | (_ & Hrun)]; rewrite Hrun; simpl.
    + apply consistent_with_session; assumption.
    + exact Hc.
  - intros now rt. unfold request.
    destruct (refresh_cases now rt s) as [(user & Hcan & Hrun) | (e & Hrun & _)];
      rewrite Hrun; simpl; [|exact Hc].
    destruct Hcan as (p & row & _ & _ & _ & _ & _ & Hfk & _).
    apply consistent_rotated; assumption.
  - intros token. rewrite logout_request. simpl.
    destruct Hc as (Hid & Hem & Hse & Hrt). unfold consistent. simpl.
    repeat split; try assumption.
    intros k r Hr. apply lookup_delete_Some in Hr as [_ Hr]. exact (Hse k r Hr).
  - intros now token user_id metadata.
    rewrite update_user_metadata_request.
    pose proof (get_current_user_request now token s) as Hg.
    destruct (fst (request (get_current_user now token) s)) as [u|e] eqn:E;
      [|exact Hc].
    destruct (bool_decide (Some (u_id u) = user_id)); [|exact Hc].
    simpl. apply consistent_set_user; [exact Hc|].
    rewrite Hg in E. simpl in E.
    destruct (jwt_decode now token) as [p|]; [|discriminate].
    destruct (p_sub p) as [uid|]; [|discriminate].
    destruct (live now (sessions s !! token)); [|discriminate].
    destruct (user_by_id s uid) as [v|] eqn:Ev; [|discriminate].
    injection E as <-. unfold user_by_id in Ev.
    apply find_some in Ev as [Hin _]. exact Hin.
Qed.


Lemma get_current_user_returns now token s user :
  request (get_current_user now token) s = (Return user, s) ->
  exists p uid r,
    jwt_decode now token = Some p /\ p_sub p = Some uid /\
    sessions s !! token = Some r /\ now < expires_at r /\
    user_by_id s uid = Some user.
Proof.
  rewrite get_current_user_request.
  destruct (jwt_decode now token) as [p|] eqn:Ep; [|discriminate].
  destruct (p_sub p) as [uid|] eqn:Es; [|discriminate].
  destruct (live now (sessions s !! token)) as [r|] eqn:El; [|discriminate].
  destruct (user_by_id s uid) as [u|] eqn:Eu; [|discriminate].
  intros [= <-]. apply live_some in El as [Hr Hlt].
  exists p, uid, r. repeat split; auto.
Qed.

Lemma get_current_user_preserved now token s s' user :
  request (get_current_user now token) s = (Return user, s) ->
  (forall r, sessions s !! token = Some r -> sessions s' !! token = Some r) ->
  (forall i u, user_by_id s i = Some u -> user_by_id s' i = Some u) ->
  request (get_current_user now token) s' = (Return user, s').
Proof.
  intros Hrun Hsess Husers.
  apply get_current_user_returns in Hrun
    as (p & uid & r & Hp & Hsub & Hr & Hlt & Hu).
  rewrite get_current_user_request, Hp, Hsub, (Hsess r Hr). simpl.
  destruct (Z.ltb_spec now (expires_at r)); [|lia].
  rewrite (Husers uid user Hu). reflexivity.
Qed.

Lemma with_session_keeps_row now user s token r :
  sessions s !! access_of now user = None ->
  sessions s !! token = Some r ->
  sessions (with_session now user s) !! token = Some r.
Proof.
  intros Hnew Hr. unfold with_session. simpl.
  rewrite lookup_insert_ne by congruence. exact Hr.
Qed.

(** X10: sessions are independent.  A bearer token that
    [get_current_user] accepts is still accepted, for the same user, after
    any [sign_up], any [sign_in] and any [refresh_access_token], whether
    that request returns or raises: a new sign-in does not end the earlier
    sessions, and rotating a refresh token does not end the session that
    was issued with it. *)
Theorem sessions_survive (s : Store) (now : datetime) (token : string)
    (user : User) :
  request (get_current_user now token) s = (Return user, s) ->
  (forall now' new_id salt email password metadata,
     fst (request (get_current_user now token)
            (snd (request
               (sign_up now' new_id salt email password metadata) s)))
       = Return user) /\
  (forall now' email password,
     fst (request (get_current_user now token)
            (snd (request (sign_in now' email password) s)))
       = Return user) /\
  (forall now' rt,
     fst (request (get_current_user now token)
            (snd (request (refresh_access_token now' rt) s)))
       = Return user).
Proof.
  intros Hrun. split; [|split].
  - intros now' new_id salt email password metadata.
    rewrite sign_up_request.
    set (u := new_user now' new_id salt email password metadata).
    set (s0 := mkStore (users s ++ [u]) (sessions s) (refresh_tokens s)).
    assert (Hs0 : request (get_current_user now token) s0 = (Return user, s0)).
    { apply (get_current_user_preserved now token s s0 user Hrun); [auto|].
      intros i v Hv. unfold user_by_id in *. simpl.
      apply find_app_some. exact Hv. }
    destruct (user_by_email s email); [simpl; rewrite Hrun; reflexivity|].
    destruct (user_by_id s new_id); [simpl; rewrite Hrun; reflexivity|].
    destruct (sessions s !! access_of now' u) eqn:Ea;
      [simpl; rewrite Hs0; reflexivity|].
    destruct (refresh_tokens s !! refresh_of now' u);
      [simpl; rewrite Hs0; reflexivity|].
    simpl.
    rewrite (get_current_user_preserved now token s0
               (with_session now' u s0) user Hs0); [reflexivity| |auto].
    intros r Hr. apply with_session_keeps_row; assumption.
  - intros now' email password.
    pose proof (sign_in_cases now' email password s) as Hsi.
    destruct (user_by_email s email) as [u|];
      [|rewrite Hsi; simpl; rewrite Hrun; reflexivity].
    destruct (verify_password password (u_encrypted_password u));
      rewrite Hsi; [|simpl; rewrite Hrun; reflexivity].
    destruct (create_session_request now' u s)
      as [(_ & Ha & _ & Hcs) | (_ & Hcs)]; rewrite Hcs; simpl;
      [|rewrite Hrun; reflexivity].
    rewrite (get_current_user_preserved now token s
               (with_session now' u s) user Hrun); [reflexivity| |auto].
    intros r Hr. apply with_session_keeps_row; assumption.
  - intros now' rt. unfold request at 2.
    destruct (refresh_cases now' rt s)
      as [(u & Hcan & Hok) | (e & Hko & _)]; [rewrite Hok|rewrite Hko];
      simpl; [|rewrite Hrun; reflexivity].
    destruct Hcan as (p & row & _ & _ & _ & _ & _ & _ & Ha & _).
    rewrite (get_current_user_preserved now token s
               (rotated now' rt u s) user Hrun); [reflexivity| |auto].
    intros r Hr. unfold rotated. simpl.
    rewrite lookup_insert_ne by congruence. exact Hr.
Qed.

Lemma dict_get_set_eq k v d : dict_get k (dict_set k v d) = Some v.
Proof.
  unfold dict_get. induction d as [|[k' v'] d IH]; simpl.
  - rewrite String.eqb_refl. reflexivity.
  - destruct (String.eqb_spec k' k) as [->|Hne]; simpl.
    + rewrite String.eqb_refl. reflexivity.
    + destruct (String.eqb_spec k' k); [contradiction | exact IH].
Qed.

Lemma dict_get_set_ne k k' v d :
  k <> k' -> dict_get k (dict_set k' v d) = dict_get k d.
Proof.
  intros Hne. unfold dict_get. induction d as [|[k0 v0] d IH]; simpl.
  - destruct (String.eqb_spec k' k); [congruence | reflexivity].
  - destruct (String.eqb_spec k0 k') as [->|Hne0]; simpl.
    + destruct (String.eqb_spec k' k); [congruence | reflexivity].
    + destruct (String.eqb_spec k0 k); [reflexivity | exact IH].
Qed.

(** X8: [{**a, **b}] reads as [b] first.  In the merged metadata a key of
    the request has the value of the request, and any other key has the
    value it had. *)
Theorem dict_merge_get (a b : dict) (k : string) :
  NoDup (map fst b) ->
  dict_get k (dict_merge a b) =
    match dict_get k b with
    | Some v => Some v
    | None => dict_get k a
    end.
Proof.
  unfold dict_merge. revert a.
  induction b as [|[k' v'] b IH]; intros a Hnd; simpl; [reflexivity|].
  apply NoDup_cons in Hnd as [Hnotin Hnd].
  rewrite IH by exact Hnd. unfold dict_get at 3. simpl.
  destruct (String.eqb_spec k' k) as [->|Hne]; simpl.
  - replace (dict_get k b) with (@None string).
    + apply dict_get_set_eq.
    + unfold dict_get. destruct (find _ b) as [[k0 v0]|] eqn:E; [|reflexivity].
      exfalso. apply find_some in E as [Hin Heq]. simpl in Heq.
      apply String.eqb_eq in Heq. subst k0. apply Hnotin.
      apply list_elem_of_In. apply (in_map fst) in Hin. exact Hin.
  - fold (dict_get k b). destruct (dict_get k b); [reflexivity|].
    apply dict_get_set_ne. congruence.
Qed.

Lemma user_by_id_set_user_eq u' s :
  user_by_id s (u_id u') <> None ->
  user_by_id (set_user u' s) (u_id u') = Some u'.
Proof.
  unfold user_by_id, set_user. simpl.
  induction (users s) as [|v l IH]; simpl; [contradiction|].
  destruct (N.eqb_spec (u_id v) (u_id u')) as [Heq|Hne].
  - intros _. rewrite N.eqb_refl. reflexivity.
  - destruct (N.eqb_spec (u_id v) (u_id u')); [contradiction | exact IH].
Qed.

Lemma user_by_id_set_user_ne u' s i :
  i <> u_id u' -> user_by_id (set_user u' s) i = user_by_id s i.
Proof.
  intros Hne. unfold user_by_id, set_user. simpl.
  induction (users s) as [|v l IH]; simpl; [reflexivity|].
  destruct (N.eqb_spec (u_id v) (u_id u')) as [Heq|Hne'].
  - destruct (N.eqb_spec (u_id u') i); [congruence|].
    destruct (N.eqb_spec (u_id v) i); [congruence | exact IH].
  - destruct (N.eqb (u_id v) i); [reflexivity | exact IH].
Qed.

(** X7: [update_user_metadata] writes the caller's own row and nothing
    else.  For a bearer token that [get_current_user] accepts for [user]:
    with any other [user_id] in the path the route raises 403 and writes
    nothing; with the caller's own id it returns the view of the row with
    the metadata merged, and in the store that row is replaced -- id,
    email, password hash and creation time as they were -- while every
    other user, every session and every refresh token is as it was. *)
Theorem update_user_metadata_own_row (now : datetime) (token : string)
    (user_id : option uuid) (metadata : dict) (s : Store) (user : User) :
  request (get_current_user now token) s = (Return user, s) ->
  let run := request (update_user_metadata now token user_id metadata) s in
  let updated := with_metadata now user metadata in
  (user_id <> Some (u_id user) ->
     run = (Raise (HTTPException 403 "Cannot update other user's metadata"
                     false), s)) /\
  (user_id = Some (u_id user) ->
     fst run = Return (user_view updated) /\
     sessions (snd run) = sessions s /\
     refresh_tokens (snd run) = refresh_tokens s /\
     user_by_id (snd run) (u_id user) = Some updated /\
     (forall i, i <> u_id user -> user_by_id (snd run) i = user_by_id s i) /\
     u_id updated = u_id user /\ u_email updated = u_email user /\
     u_encrypted_password updated = u_encrypted_password user /\
     (dict_merge (u_metadata user) metadata = u_metadata user ->
        updated = user) /\
     (dict_merge (u_metadata user) metadata <> u_metadata user ->
        u_metadata updated = dict_merge (u_metadata user) metadata /\
        u_updated_at updated = now /\
        u_created_at updated = u_created_at user)).
Proof.
  intros Hrun run updated. unfold run.
  rewrite update_user_metadata_request, Hrun. simpl.
  apply get_current_user_returns in Hrun
    as (p & uid & r & _ & _ & _ & _ & Hu).
  assert (Hid : u_id user = uid).
  { unfold user_by_id in Hu. apply find_some in Hu as [_ Heq].
    apply N.eqb_eq. exact Heq. }
  destruct (with_metadata_keeps now user metadata)
    as (Hkid & Hkem & Hkpw & Hkcr).
  fold updated in Hkid, Hkem, Hkpw, Hkcr.
  split; intros Hpath.
  - rewrite bool_decide_eq_false_2 by congruence. reflexivity.
  - rewrite bool_decide_eq_true_2 by congruence. simpl.
    split; [reflexivity|]. split; [reflexivity|]. split; [reflexivity|].
    split; [|split].
    + rewrite <- Hkid. apply (user_by_id_set_user_eq updated s).
      rewrite Hkid, Hid, Hu. discriminate.
    + intros i Hi. apply (user_by_id_set_user_ne updated s i).
      rewrite Hkid. exact Hi.
    + split; [exact Hkid|]. split; [exact Hkem|]. split; [exact Hkpw|].
      unfold updated, with_metadata. split; intros Hsame.
      * rewrite bool_decide_eq_true_2 by exact Hsame. reflexivity.
      * rewrite bool_decide_eq_false_2 by exact Hsame. simpl. auto.
Qed.

End AuthMoreFacts.

(* ===================================================================== *)
(** * Properties of [sign_up] under the column widths                     *)
(* ===================================================================== *)

Section ColumnsFacts.

Import Auth AuthMore Columns.

Context `{!TokenCodec} `{!CryptContext}.

Lemma token_length_sign p : token_length (jws_sign p) = jwt_length p.
Proof. unfold token_length. rewrite jws_verify_sign. reflexivity. Qed.

(** The refresh token of [create_session], with the ten digits that
    ["exp"] has from 2001 to 2286: 81 characters around the base64url of
    [91 + len(email)] bytes.  It is longer than 255 characters exactly from
    an email of 40 characters on. *)
Lemma refresh_token_length now user :
  decimal_length
    (numeric_date (now + timedelta_days REFRESH_TOKEN_EXPIRE_DAYS)) = 10 ->
  token_length (refresh_of now user)
    = 81 + b64_length (91 + Z.of_nat (String.length (u_email user))) /\
  (255 < token_length (refresh_of now user) <->
   (40 <= String.length (u_email user))%nat).
Proof.
  intros Hdigits.
  assert (Hlen : token_length (refresh_of now user)
            = 81 + b64_length (91 + Z.of_nat (String.length (u_email user)))).
  { unfold refresh_of, create_refresh_token. rewrite token_length_sign.
    unfold jwt_length, json_length, member_lengths, token_data. simpl.
    rewrite Hdigits. unfold json_string_length, uuid_text_length. simpl.
    change (b64_length 27) with 36. change (b64_length 32) with 43.
    change (Z.of_nat 7) with 7. change (0 `max` (Z.of_nat 4 - 1)) with 3.
    replace (2 + (6 + (36 + 2)
                  + (8 + (Z.of_nat (String.length (u_email user)) + 2)
                     + (6 + 10 + (7 + (7 + 2) + 0)))) + 3)
      with (91 + Z.of_nat (String.length (u_email user))) by lia.
    lia. }
  split; [exact Hlen|]. rewrite Hlen. unfold b64_length.
  pose proof (Z.div_mod (4 * (91 + Z.of_nat (String.length (u_email user))) + 2)
                3 ltac:(lia)) as Hdiv.
  pose proof (Z.mod_pos_bound
                (4 * (91 + Z.of_nat (String.length (u_email user))) + 2) 3
                ltac:(lia)) as Hmod.
  lia.
Qed.

(** The flush with every pending value within its column. *)
Lemma insert_all_fits es s :
  forallb fits es = true ->
  Columns.insert_all es s =
    match Auth.insert_all es s with
    | Some s' => Return s'
    | None => Raise IntegrityError
    end.
Proof.
  revert s. induction es as [|e es IH]; intros s Hfits; simpl; [reflexivity|].
  simpl in Hfits. apply andb_prop in Hfits as [He Hes]. rewrite He. simpl.
  destruct (insert_entity e s) as [s'|]; [apply IH, Hes | reflexivity].
Qed.

Lemma db_commit_fits db :
  forallb fits (new db) = true -> Columns.db_commit db = Auth.db_commit db.
Proof.
  intros Hfits. unfold Columns.db_commit, Auth.db_commit.
  rewrite (insert_all_fits _ _ Hfits).
  destruct (Auth.insert_all (new db) (store db)); reflexivity.
Qed.

(** [sign_up] in one request under the widths, case by case.  The user row
    is committed by [create_user]; the commit of [create_session] comes
    after it and is refused when a token does not fit its column. *)
Lemma sign_up_request_widths now new_id salt email password metadata s :
  let user := new_user now new_id salt email password metadata in
  let s0 := mkStore (users s ++ [user]) (sessions s) (refresh_tokens s) in
  user_by_email s email = None ->
  user_by_id s new_id = None ->
  Z.of_nat (String.length email) <= 255 ->
  sessions s !! access_of now user = None ->
  refresh_tokens s !! refresh_of now user = None ->
  request (Columns.sign_up now new_id salt email password metadata) s =
    if (token_length (access_of now user) <=? 255)
       && (token_length (refresh_of now user) <=? 255)
    then (Return (issued now user), with_session now user s0)
    else (Raise (HTTPException 500 "DataError" false), s0).
Proof.
  intros user s0 Hemail Hid Hlen Haccess Hrefresh.
  unfold request, Columns.sign_up, except_exception, Columns.create_user,
    Columns.create_session, Columns.db_commit, query, db_add, raise,
    mbind, M_bind, mret, M_ret. simpl.
  rewrite Hemail. simpl.
  destruct (Z.leb_spec (Z.of_nat (String.length email)) 255) as [_|]; [|lia].
  simpl. rewrite Hid, Hemail. simpl.
  fold (new_user now new_id salt email password metadata). fold user.
  fold (access_of now user). fold (refresh_of now user).
  destruct (token_length (access_of now user) <=? 255) eqn:Ea; simpl;
    [|reflexivity].
  assert (Huser : find (fun u => N.eqb (u_id u) new_id) (users s ++ [user])
                  = Some user).
  { unfold user_by_id in Hid. rewrite (find_app_none _ _ _ Hid). simpl.
    rewrite N.eqb_refl. reflexivity. }
  unfold user_by_id. simpl. rewrite Huser, Haccess.
  destruct (token_length (refresh_of now user) <=? 255) eqn:Er; simpl;
    [|reflexivity].
  rewrite Huser, Hrefresh. reflexivity.
Qed.

(** Where both tokens fit, [sign_up] under the widths is [Auth.sign_up]. *)
Lemma sign_up_fits now new_id salt email password metadata s :
  let user := new_user now new_id salt email password metadata in
  user_by_email s email = None ->
  user_by_id s new_id = None ->
  Z.of_nat (String.length email) <= 255 ->
  sessions s !! access_of now user = None ->
  refresh_tokens s !! refresh_of now user = None ->
  token_length (access_of now user) <= 255 ->
  token_length (refresh_of now user) <= 255 ->
  request (Columns.sign_up now new_id salt email password metadata) s =
  request (Auth.sign_up now new_id salt email password metadata) s.
Proof.
  intros user Hemail Hid Hlen Haccess Hrefresh Ha Hr.
  rewrite (sign_up_request_widths now new_id salt email password metadata s
             Hemail Hid Hlen Haccess Hrefresh).
  pose proof (sign_up_request now new_id salt email password metadata s)
    as Hauth. cbv zeta in Hauth. rewrite Hauth, Hemail, Hid.
  fold user. rewrite Haccess, Hrefresh.
  destruct (Z.leb_spec (token_length (access_of now user)) 255); [|lia].
  destruct (Z.leb_spec (token_length (refresh_of now user)) 255); [|lia].
  reflexivity.
Qed.

(** From an email of 40 characters on, with fresh id and email: the
    sign-up is answered 500 and the user row stays, without a session row
    and without a refresh token row. *)
Lemma sign_up_too_long now new_id salt email password metadata s :
  let user := new_user now new_id salt email password metadata in
  user_by_email s email = None ->
  user_by_id s new_id = None ->
  (40 <= String.length email <= 255)%nat ->
  decimal_length
    (numeric_date (now + timedelta_days REFRESH_TOKEN_EXPIRE_DAYS)) = 10 ->
  sessions s !! access_of now user = None ->
  refresh_tokens s !! refresh_of now user = None ->
  request (Columns.sign_up now new_id salt email password metadata) s =
    (Raise (HTTPException 500 "DataError" false),
     mkStore (users s ++ [user]) (sessions s) (refresh_tokens s)).
Proof.
  intros user Hemail Hid Hlen Hdigits Haccess Hrefresh.
  rewrite (sign_up_request_widths now new_id salt email password metadata s
             Hemail Hid ltac:(lia) Haccess Hrefresh).
  fold user.
  destruct (refresh_token_length now user Hdigits) as [_ Hlong].
  assert (Hover : 255 < token_length (refresh_of now user)).
  { apply Hlong. unfold user, new_user. simpl. lia. }
  destruct (Z.leb_spec (token_length (refresh_of now user)) 255); [lia|].
  rewrite andb_false_r. reflexivity.
Qed.

End ColumnsFacts.

Section ColumnsScenario.

Import Auth Columns.

#[local] Existing Instances bits_codec plain_hasher.

(** C3 at its failing input: a sign-up on empty tables with an email of 40
    characters.  [create_user] commits the user row; the access token has
    255 characters and the refresh token 256, one more than
    [String(255)] holds, so the commit of [create_session] raises; the
    route answers 500 and the user row is left stored without a session
    row and without a refresh token row. *)
Lemma sign_up_long_email_leaves_user :
  let run := request (Columns.sign_up t0 3%N 5%N long_email "pw3" None)
                     empty_store in
  String.length long_email = 40%nat /\
  token_length (access_of t0 carol) = 255 /\
  token_length (refresh_of t0 carol) = 256 /\
  fst run = Raise (HTTPException 500 "DataError" false) /\
  users (snd run) = [carol] /\
  sessions (snd run) = ∅ /\
  refresh_tokens (snd run) = ∅.
Proof.
  cbv zeta.
  rewrite (sign_up_too_long t0 3%N 5%N long_email "pw3" None empty_store);
    try (vm_compute; reflexivity).
  - repeat split; vm_compute; reflexivity.
  - split; vm_compute; lia.
Qed.

(** The sign-up of the first account, whose tokens have 211 and 212
    characters, goes through the widths as it does without them. *)
Lemma sign_up_alice_widths :
  token_length (access_of t0 alice) = 211 /\
  token_length (refresh_of t0 alice) = 212 /\
  request (Columns.sign_up t0 1%N 7%N "a@x.com" "pw1" None) empty_store =
  request (Auth.sign_up t0 1%N 7%N "a@x.com" "pw1" None) empty_store.
Proof.
  split; [vm_compute; reflexivity|]. split; [vm_compute; reflexivity|].
  apply sign_up_fits; try (vm_compute; reflexivity); vm_compute; discriminate.
Qed.

End ColumnsScenario.

(* ===================================================================== *)
(** * Further properties of the chunking engine                           *)
(* ===================================================================== *)

Section ChunkerMoreFacts.

Import Chunker Pieces.

Lemma lstrip_suffix l : exists ws, l = ws ++ lstrip l /\ Forall (fun c => isspace c = true) ws.
Proof.
  induction l as [|x l (ws & Hl & Hws)]; simpl.
  - exists []. split; [reflexivity | constructor].
  - destruct (isspace x) eqn:Ex.
    + exists (x :: ws). split; [simpl; congruence | constructor; assumption].
    + exists []. split; [reflexivity | constructor].
Qed.

Lemma lstrip_head l x : head (lstrip l) = Some x -> isspace x = false.
Proof.
  induction l as [|y l IH]; simpl; [discriminate|].
  destruct (isspace y) eqn:Ey; [exact IH|]. simpl. congruence.
Qed.

Lemma rstrip_prefix l : exists ws, l = rstrip l ++ ws /\ Forall (fun c => isspace c = true) ws.
Proof.
  unfold rstrip. destruct (lstrip_suffix (rev l)) as (ws & Hl & Hws).
  exists (rev ws). split; [|apply Forall_rev; exact Hws].
  rewrite <- rev_app_distr, <- Hl, rev_involutive. reflexivity.
Qed.

Lemma rstrip_last l x : last (rstrip l) = Some x -> isspace x = false.
Proof.
  unfold rstrip. rewrite rev_alt.
  change (last (reverse (lstrip (rev l))) = Some x -> isspace x = false).
  rewrite last_reverse. apply lstrip_head.
Qed.

Lemma rstrip_head l x :
  head l = Some x -> isspace x = false -> head (rstrip l) = Some x.
Proof.
  intros Hh Hx. destruct (rstrip_prefix l) as (ws & Hl & Hws).
  destruct (rstrip l) as [|y r]; simpl in *.
  - subst l. destruct ws as [|w ws]; [discriminate|].
    simpl in Hh. injection Hh as ->.
    inversion Hws; subst. congruence.
  - rewrite Hl in Hh. simpl in Hh. exact Hh.
Qed.

Lemma strip_ends l :
  (forall x, head (strip l) = Some x -> isspace x = false) /\
  (forall x, last (strip l) = Some x -> isspace x = false).
Proof.
  unfold strip. split; intros x Hx.
  - destruct (lstrip l) as [|y r] eqn:E; [vm_compute in Hx; discriminate|].
    assert (Hy : isspace y = false) by (apply (lstrip_head l); rewrite E; reflexivity).
    rewrite (rstrip_head (y :: r) y eq_refl Hy) in Hx. congruence.
  - eapply rstrip_last. exact Hx.
Qed.

Lemma strip_piece l : piece_of (strip l) l.
Proof.
  unfold strip. destruct (lstrip_suffix l) as (ws & Hl & _).
  destruct (rstrip_prefix (lstrip l)) as (ws' & Hl' & _).
  exists ws, ws'. rewrite <- Hl'. exact Hl.
Qed.

Lemma slice_piece t i j : piece_of (slice t i j) t.
Proof.
  unfold slice.
  set (a := Z.to_nat (adjust (len t) i)).
  set (n := Z.to_nat (adjust (len t) j - adjust (len t) i)).
  exists (take a t), (drop n (drop a t)).
  rewrite take_drop, take_drop. reflexivity.
Qed.

Lemma piece_of_trans a b c : piece_of a b -> piece_of b c -> piece_of a c.
Proof.
  intros (p1 & q1 & ->) (p2 & q2 & ->).
  exists (p2 ++ p1), (q1 ++ q2). rewrite <- !app_assoc. reflexivity.
Qed.

Lemma chunk_loop_well_cut fuel t cs ov start chunks r :
  Forall (well_cut t) chunks ->
  chunk_loop fuel t cs ov start chunks = Some r ->
  Forall (well_cut t) r.
Proof.
  revert start chunks. induction fuel as [|fuel IH]; intros start chunks Hall Hrun.
  - discriminate.
  - simpl in Hrun. destruct (start <? len t).
    + eapply IH; [|exact Hrun]. unfold push_chunk.
      set (w := slice t start (window_end t cs ov start)).
      destruct (strip w) as [|x c] eqn:E; [exact Hall|].
      apply Forall_app. split; [exact Hall|].
      constructor; [|constructor]. rewrite <- E.
      split; [rewrite E; discriminate|]. split.
      * eapply piece_of_trans; [apply strip_piece | apply slice_piece].
      * apply strip_ends.
    + injection Hrun as <-. exact Hall.
Qed.

(** X12: every chunk that [chunk_text] returns, for any text and any
    parameters, is a non-empty run of consecutive characters of the text
    that neither starts nor ends with white space. *)
Theorem chunk_text_well_cut (fuel : nat) (t : text) (chunk_size overlap : Z)
    (chunks : list text) :
  chunk_text fuel t chunk_size overlap = Some chunks ->
  forall c, c ∈ chunks ->
    c <> [] /\
    (exists pre post, t = pre ++ c ++ post) /\
    (forall x, head c = Some x -> isspace x = false) /\
    (forall x, last c = Some x -> isspace x = false).
Proof.
  intros Hrun c Hc.
  apply chunk_loop_well_cut in Hrun; [|constructor].
  rewrite Forall_forall in Hrun. exact (Hrun c Hc).
Qed.


Lemma rfind_from_upper c l base :
  rfind_from c l base = -1 \/ rfind_from c l base < base + len l.
Proof.
  revert base. induction l as [|x l IH]; intros base; simpl; [left; reflexivity|].
  unfold len in *. simpl length. rewrite Nat2Z.inj_succ.
  destruct (IH (base + 1)) as [Hr | Hr].
  - rewrite Hr. simpl. destruct (Ascii.eqb x c); [right; lia | left; reflexivity].
  - destruct (0 <=? rfind_from c l (base + 1)); [right; lia|].
    destruct (Ascii.eqb x c); [right; lia | left; reflexivity].
Qed.

Lemma rfind_upper t c i j :
  0 <= i <= len t -> 0 <= j ->
  rfind t c i j = -1 \/ rfind t c i j < j.
Proof.
  intros Hi Hj. unfold rfind.
  set (l := take _ _).
  destruct (rfind_from_upper c l (adjust (len t) i)) as [Hr | Hr];
    [left; exact Hr|].
  assert (Hl : length l = 0%nat \/
               Z.of_nat (length l) <= adjust (len t) j - adjust (len t) i).
  { unfold l. rewrite length_take. lia. }
  destruct Hl as [Hl | Hl].
  - left. destruct l; [reflexivity | discriminate].
  - right. revert Hr Hl. unfold len, adjust in *.
    destruct (Z.ltb_spec i 0); [lia|]. destruct (Z.ltb_spec j 0); lia.
Qed.

(** The cut is never beyond the raw window boundary. *)
Lemma window_end_upper t cs ov start :
  0 <= start < len t -> 0 < cs ->
  window_end t cs ov start <= start + cs.
Proof.
  intros Hs Hcs. unfold window_end.
  destruct (start + cs <? len t); [|lia].
  destruct (_ <? Z.max _ _); [|lia].
  destruct (rfind_upper t period start (start + cs)) as [Hp | Hp]; [lia | lia | |];
    destruct (rfind_upper t newline start (start + cs)) as [Hn | Hn]; lia.
Qed.

Lemma lstrip_length l : (length (lstrip l) <= length l)%nat.
Proof.
  induction l as [|x l IH]; simpl; [lia|]. destruct (isspace x); simpl; lia.
Qed.

Lemma strip_length l : (length (strip l) <= length l)%nat.
Proof.
  unfold strip, rstrip. rewrite length_rev.
  etransitivity; [apply lstrip_length|]. rewrite length_rev. apply lstrip_length.
Qed.

Lemma slice_length_le t i j :
  0 <= i -> 0 <= j -> Z.of_nat (length (slice t i j)) <= Z.max 0 (j - i).
Proof.
  intros Hi Hj. unfold slice, adjust, len. rewrite length_take, length_drop.
  destruct (Z.ltb_spec i 0); [lia|]. destruct (Z.ltb_spec j 0); lia.
Qed.

Lemma chunk_loop_bounded fuel t cs ov start chunks r :
  0 <= ov < cs -> 2 * ov <= cs + 1 -> 0 <= start ->
  Forall (fun c => Z.of_nat (length c) <= cs) chunks ->
  chunk_loop fuel t cs ov start chunks = Some r ->
  Forall (fun c => Z.of_nat (length c) <= cs) r.
Proof.
  intros Hov H2. revert start chunks.
  induction fuel as [|fuel IH]; intros start chunks Hs Hall Hrun.
  - discriminate.
  - simpl in Hrun. destruct (Z.ltb_spec start (len t)) as [Hlt|].
    + apply (IH (next_start t cs ov start)
                (push_chunk t cs ov start chunks)); [| |exact Hrun].
      * pose proof (next_start_increases t cs ov start). lia.
      * unfold push_chunk.
        set (w := slice t start (window_end t cs ov start)).
        destruct (strip w) as [|x c] eqn:E; [exact Hall|].
        apply Forall_app. split; [exact Hall|].
        constructor; [|constructor]. rewrite <- E.
        pose proof (strip_length w).
        pose proof (slice_length_le t start (window_end t cs ov start)).
        pose proof (window_end_upper t cs ov start).
        pose proof (window_end_lower t cs ov start).
        unfold w in *. lia.
    + injection Hrun as <-. exact Hall.
Qed.

(** X13: with [0 <= overlap < chunk_size] and
    [2 * overlap <= chunk_size + 1], no chunk that [chunk_text] returns is
    longer than [chunk_size] characters. *)
Theorem chunk_text_bounded (fuel : nat) (t : text) (chunk_size overlap : Z)
    (chunks : list text) :
  0 <= overlap < chunk_size ->
  2 * overlap <= chunk_size + 1 ->
  chunk_text fuel t chunk_size overlap = Some chunks ->
  forall c, c ∈ chunks -> Z.of_nat (length c) <= chunk_size.
Proof.
  intros Hov H2 Hrun c Hc.
  apply chunk_loop_bounded in Hrun; try assumption; [|lia|constructor].
  rewrite Forall_forall in Hrun. exact (Hrun c Hc).
Qed.

Lemma lstrip_blank l : Forall (fun c => isspace c = true) l -> lstrip l = [].
Proof.
  induction 1 as [|x l Hx _ IH]; simpl; [reflexivity|]. rewrite Hx. exact IH.
Qed.

Lemma strip_blank l : Forall (fun c => isspace c = true) l -> strip l = [].
Proof. intros Hl. unfold strip. rewrite lstrip_blank by exact Hl. reflexivity. Qed.

Lemma chunk_loop_blank fuel t cs ov start r :
  Forall (fun c => isspace c = true) t ->
  chunk_loop fuel t cs ov start [] = Some r -> r = [].
Proof.
  intros Hb. revert start. induction fuel as [|fuel IH]; intros start Hrun.
  - discriminate.
  - simpl in Hrun. destruct (start <? len t).
    + apply (IH (next_start t cs ov start)).
      unfold push_chunk in Hrun. rewrite strip_blank in Hrun; [exact Hrun|].
      unfold slice. apply Forall_take, Forall_drop, Hb.
    + congruence.
Qed.

(** X11: a text without content gives no chunks.  On the empty text, and on
    any text of white space only, [chunk_text] returns the empty list:
    whenever it returns, for any parameters, and it does return with the
    defaults of the callers. *)
Theorem chunk_text_blank (t : text) :
  Forall (fun c => isspace c = true) t ->
  (forall fuel chunk_size overlap chunks,
     chunk_text fuel t chunk_size overlap = Some chunks -> chunks = []) /\
  (forall fuel, (length t < fuel)%nat -> chunk_text fuel t 1000 200 = Some []).
Proof.
  intros Hb. split.
  - intros fuel cs ov chunks. apply chunk_loop_blank. exact Hb.
  - intros fuel Hf.
    destruct (chunk_loop_terminates t 1000 200 ltac:(lia) ltac:(lia)
                (length t) 0 []) as [r Hr]; [unfold len; lia|].
    specialize (Hr fuel Hf). unfold chunk_text. rewrite Hr. f_equal.
    eapply chunk_loop_blank; eassumption.
Qed.

(** X14: a short text is one chunk.  With [0 <= overlap] and a text of at
    most [chunk_size - overlap] characters that is not all white space,
    [chunk_text] returns the stripped text as its only chunk. *)
Theorem chunk_text_short (fuel : nat) (t : text) (chunk_size overlap : Z) :
  0 <= overlap ->
  0 < len t <= chunk_size - overlap ->
  strip t <> [] ->
  chunk_text (S (S fuel)) t chunk_size overlap = Some [strip t].
Proof.
  intros Hov Hlen Hne. unfold chunk_text.
  rewrite chunk_loop_iter by lia.
  assert (Hwe : window_end t chunk_size overlap 0 = chunk_size).
  { unfold window_end. destruct (Z.ltb_spec (0 + chunk_size) (len t)); lia. }
  assert (Hsl : slice t 0 chunk_size = t).
  { unfold slice, adjust.
    destruct (Z.ltb_spec 0 0); [lia|]. destruct (Z.ltb_spec chunk_size 0); [lia|].
    rewrite (Z.min_l 0), (Z.min_r chunk_size) by lia. simpl.
    rewrite Z.sub_0_r.
    unfold len. rewrite Nat2Z.id. apply firstn_all. }
  unfold next_start, push_chunk. rewrite Hwe, Hsl.
  destruct (strip t) as [|x c] eqn:E; [contradiction|].
  apply chunk_loop_exit. lia.
Qed.


Lemma elem_of_slice t (i : nat) x s e :
  t !! i = Some x -> 0 <= s <= Z.of_nat i -> Z.of_nat i < e ->
  x ∈ slice t s e.
Proof.
  intros Hx Hs He.
  assert (Hi : (i < length t)%nat) by (eapply lookup_lt_Some; exact Hx).
  unfold slice, adjust, len.
  destruct (Z.ltb_spec s 0); [lia|]. destruct (Z.ltb_spec e 0); [lia|].
  apply list_elem_of_lookup. exists (i - Z.to_nat s)%nat.
  rewrite lookup_take_lt by lia. rewrite lookup_drop.
  replace (Z.to_nat (Z.min s (Z.of_nat (length t))) + (i - Z.to_nat s))%nat
    with i by lia.
  exact Hx.
Qed.

Lemma lstrip_keeps l x : x ∈ l -> isspace x = false -> x ∈ lstrip l.
Proof.
  intros Hin Hx. induction l as [|y l IH]; simpl; [exact Hin|].
  destruct (isspace y) eqn:Ey; [|exact Hin].
  apply IH. apply elem_of_cons in Hin as [-> | Hin]; [congruence | exact Hin].
Qed.

Lemma strip_keeps l x : x ∈ l -> isspace x = false -> x ∈ strip l.
Proof.
  intros Hin Hx. unfold strip, rstrip.
  assert (Hrev : forall l' : text, x ∈ l' -> x ∈ rev l').
  { intros l' Hl'. apply list_elem_of_In. apply -> in_rev.
    apply list_elem_of_In. exact Hl'. }
  apply Hrev, lstrip_keeps; [|exact Hx].
  apply Hrev, lstrip_keeps; assumption.
Qed.

Lemma chunk_loop_keeps fuel t cs ov start chunks r c :
  chunk_loop fuel t cs ov start chunks = Some r -> c ∈ chunks -> c ∈ r.
Proof.
  revert start chunks. induction fuel as [|fuel IH]; intros start chunks Hrun Hc.
  - discriminate.
  - simpl in Hrun. destruct (start <? len t).
    + eapply IH; [exact Hrun|]. unfold push_chunk.
      destruct (strip _); [exact Hc|]. apply elem_of_app. left. exact Hc.
    + injection Hrun as <-. exact Hc.
Qed.

Lemma chunk_loop_covers fuel t cs ov start chunks r :
  0 <= ov < cs -> 2 * ov <= cs + 1 -> 0 <= start ->
  chunk_loop fuel t cs ov start chunks = Some r ->
  forall (i : nat) x,
    start <= Z.of_nat i -> t !! i = Some x -> isspace x = false ->
    exists s e, 0 <= s <= Z.of_nat i /\ Z.of_nat i < e /\
                strip (slice t s e) ∈ r /\ x ∈ strip (slice t s e).
Proof.
  intros Hov H2. revert start chunks.
  induction fuel as [|fuel IH]; intros start chunks Hs Hrun i x Hi Hx Hsp.
  - discriminate.
  - simpl in Hrun. destruct (Z.ltb_spec start (len t)) as [Hlt|Hge].
    + pose proof (next_start_increases t cs ov start) as Hinc.
      destruct (Z.lt_ge_cases (Z.of_nat i) (window_end t cs ov start))
        as [Hin | Hout].
      * exists start, (window_end t cs ov start).
        assert (Hmem : x ∈ strip (slice t start (window_end t cs ov start))).
        { apply strip_keeps; [|exact Hsp].
          apply (elem_of_slice t i); [exact Hx | lia | exact Hin]. }
        split; [lia|]. split; [exact Hin|]. split; [|exact Hmem].
        eapply chunk_loop_keeps; [exact Hrun|]. unfold push_chunk.
        destruct (strip (slice t start (window_end t cs ov start))) eqn:E.
        -- apply elem_of_nil in Hmem. contradiction.
        -- apply elem_of_app. right. apply list_elem_of_singleton. reflexivity.
      * apply (IH (next_start t cs ov start)
                  (push_chunk t cs ov start chunks)); try assumption.
        -- lia.
        -- unfold next_start. lia.
    + apply lookup_lt_Some in Hx. unfold len in Hge. lia.
Qed.

(** X15: nothing of the text is lost.  With [0 <= overlap < chunk_size] and
    [2 * overlap <= chunk_size + 1], every character of the text that is
    not white space lies in a window [text[s:e]] around its position whose
    stripped content is one of the returned chunks, and that chunk
    contains it. *)
Theorem chunk_text_covers (fuel : nat) (t : text) (chunk_size overlap : Z)
    (chunks : list text) :
  0 <= overlap < chunk_size ->
  2 * overlap <= chunk_size + 1 ->
  chunk_text fuel t chunk_size overlap = Some chunks ->
  forall (i : nat) x,
    t !! i = Some x -> isspace x = false ->
    exists s e, 0 <= s <= Z.of_nat i /\ Z.of_nat i < e /\
                strip (slice t s e) ∈ chunks /\ x ∈ strip (slice t s e).
Proof.
  intros Hov H2 Hrun i x Hx Hsp.
  apply (chunk_loop_covers fuel t chunk_size overlap 0 [] chunks);
    try assumption; lia.
Qed.

End ChunkerMoreFacts.

(* ===================================================================== *)
(** * Properties of the document routes                                   *)
(* ===================================================================== *)

Section DocumentsFacts.

Import Chunker Auth AuthMore Search Documents.

Context `{!VectorStore} `{!TokenCodec}.

Lemma insert_row_some {A} (key : A -> N) row table table' :
  insert_row key row table = Some table' ->
  table' = table ++ [row] /\ key row ∉ map key table.
Proof.
  unfold insert_row. destruct (existsb _ table) eqn:E; [discriminate|].
  intros [= <-]. split; [reflexivity|].
  intros Hin. apply list_elem_of_In, in_map_iff in Hin as (r & Hr & Hin).
  assert (existsb (fun r => N.eqb (key r) (key row)) table = true).
  { apply existsb_exists. exists r. split; [exact Hin|]. apply N.eqb_eq, Hr. }
  congruence.
Qed.

Lemma insert_row_fresh {A} (key : A -> N) row table :
  key row ∉ map key table ->
  insert_row key row table = Some (table ++ [row]).
Proof.
  intros Hnotin. unfold insert_row.
  destruct (existsb _ table) eqn:E; [|reflexivity].
  exfalso. apply existsb_exists in E as (r & Hin & Heq).
  apply N.eqb_eq in Heq. apply Hnotin. rewrite <- Heq.
  apply list_elem_of_In, in_map, Hin.
Qed.

Lemma insert_rows_some {A} (key : A -> N) rows table table' :
  insert_rows key rows table = Some table' -> table' = table ++ rows.
Proof.
  revert table. induction rows as [|row rows IH]; intros table; simpl.
  - intros [= <-]. rewrite app_nil_r. reflexivity.
  - destruct (insert_row key row table) as [t1|] eqn:E; [|discriminate].
    apply insert_row_some in E as [-> _]. intros Hrows.
    rewrite (IH _ Hrows), <- app_assoc. reflexivity.
Qed.

Lemma filter_other_ids (table : list Embedding) (doc : Embedding) :
  e_id doc ∉ map e_id table ->
  List.filter (fun r => negb (N.eqb (e_id r) (e_id doc))) (table ++ [doc])
    = table.
Proof.
  intros Hnotin. rewrite List.filter_app. simpl. rewrite N.eqb_refl. simpl.
  rewrite app_nil_r. induction table as [|r table IH]; simpl; [reflexivity|].
  destruct (N.eqb_spec (e_id r) (e_id doc)) as [Heq|Hne]; simpl.
  - exfalso. apply Hnotin. simpl. rewrite Heq. apply list_elem_of_here.
  - f_equal. apply IH. intros Hin. apply Hnotin. simpl.
    apply list_elem_of_further. exact Hin.
Qed.

(** X16: [delete_document] deletes only what the caller owns.  In a table
    with unique ids, whatever id is asked for, every row of another owner
    is still there afterwards; and when the caller owns no row with that
    id the answer is 404 and the tables are as they were. *)
Theorem delete_document_own_rows (document_id : N) (current_user : User)
    (vs : VStore) :
  NoDup (map e_id (embeddings vs)) ->
  (forall row, row ∈ embeddings vs ->
     e_user_id row <> Some (u_id current_user) ->
     row ∈ embeddings (snd (delete_document document_id current_user vs))) /\
  ((forall row, row ∈ embeddings vs -> e_id row = document_id ->
      e_user_id row <> Some (u_id current_user)) ->
   delete_document document_id current_user vs =
     (Raise (HTTPException 404 "Document not found" false), vs)).
Proof.
  intros Hnd. unfold delete_document. split.
  - intros row Hrow Hother.
    destruct (find _ (embeddings vs)) as [doc|] eqn:E; simpl; [|exact Hrow].
    apply find_some in E as [Hdoc Hmatch].
    apply andb_prop in Hmatch as [_ Hown]. apply bool_decide_eq_true in Hown.
    apply list_elem_of_In, filter_In. split; [apply list_elem_of_In, Hrow|].
    destruct (N.eqb_spec (e_id row) (e_id doc)) as [Heq|]; [|reflexivity].
    exfalso. apply Hother.
    rewrite (NoDup_map_eq e_id (embeddings vs) row doc Hnd
               ltac:(apply list_elem_of_In, Hrow) Hdoc Heq).
    exact Hown.
  - intros Hnone.
    destruct (find _ (embeddings vs)) as [doc|] eqn:E; [|reflexivity].
    exfalso. apply find_some in E as [Hdoc Hmatch].
    apply andb_prop in Hmatch as [Hid Hown].
    apply bool_decide_eq_true in Hown. apply N.eqb_eq in Hid.
    exact (Hnone doc ltac:(apply list_elem_of_In, Hdoc) Hid Hown).
Qed.

(** X17: adding and deleting a document are inverse.  When the embedding
    provider answers and the drawn id is new, [add_document] returns that
    id and appends one row owned by the caller; a [delete_document] of that
    id by any other user is answered 404 and changes nothing, and by the
    caller it returns and leaves the tables as they were before the
    add. *)
Theorem add_then_delete_document (new_id : N) (request : DocumentRequest)
    (owner other : User) (vs : VStore) (embedding : vector) :
  create_embedding (dr_content request) = Some embedding ->
  new_id ∉ map e_id (embeddings vs) ->
  u_id other <> u_id owner ->
  let doc := mkEmbedding new_id (Some (u_id owner)) (dr_content request)
               embedding (dr_metadata request) in
  let vs1 := mkVStore (embeddings vs ++ [doc]) (documents vs)
               (document_chunks vs) in
  add_document new_id request owner vs = (Return new_id, vs1) /\
  delete_document new_id other vs1 =
    (Raise (HTTPException 404 "Document not found" false), vs1) /\
  delete_document new_id owner vs1 =
    (Return "Document deleted successfully"%string, vs).
Proof.
  intros Hemb Hfresh Hother doc vs1.
  assert (Hnone : forall u, find (fun r => N.eqb (e_id r) new_id
                     && bool_decide (e_user_id r = Some (u_id u)))
                   (embeddings vs) = None).
  { intros u. destruct (find _ (embeddings vs)) as [r|] eqn:E; [|reflexivity].
    exfalso. apply find_some in E as [Hin Hm].
    apply andb_prop in Hm as [Hid _]. apply N.eqb_eq in Hid.
    apply Hfresh. rewrite <- Hid. apply list_elem_of_In, in_map, Hin. }
  split; [|split].
  - unfold add_document. rewrite Hemb.
    rewrite (insert_row_fresh e_id) by exact Hfresh. reflexivity.
  - unfold delete_document, vs1. simpl.
    rewrite find_app_none by apply Hnone. simpl. rewrite N.eqb_refl. simpl.
    rewrite bool_decide_eq_false_2 by congruence. reflexivity.
  - unfold delete_document, vs1. simpl.
    rewrite find_app_none by apply Hnone. simpl. rewrite N.eqb_refl. simpl.
    rewrite bool_decide_eq_true_2 by reflexivity.
    rewrite (filter_other_ids (embeddings vs) doc Hfresh).
    destruct vs; reflexivity.
Qed.


Lemma chunk_records_some chunk_id document_id i chunks records :
  chunk_records chunk_id document_id i chunks = Some records ->
  map c_content records = chunks /\
  map c_chunk_index records = seq i (length chunks) /\
  Forall (fun r => c_document_id r = document_id /\
                   c_id r = chunk_id (c_chunk_index r) /\
                   c_metadata r = index_metadata (c_chunk_index r) /\
                   create_embedding (c_content r) = Some (c_embedding r))
         records.
Proof.
  revert i records. induction chunks as [|chunk chunks IH]; intros i records; simpl.
  - intros [= <-]. repeat split. constructor.
  - destruct (create_embedding chunk) as [e|] eqn:Ee; [|discriminate].
    destruct (chunk_records chunk_id document_id (S i) chunks) as [rs|] eqn:Er;
      [|discriminate].
    simpl. intros [= <-]. destruct (IH _ _ Er) as (Hc & Hi & Hall).
    simpl. rewrite Hc, Hi. repeat split. constructor; [|exact Hall].
    simpl. auto.
Qed.

(** X18: [add_large_document] stores a document whole or not at all.  When
    it raises -- the id is taken, the embedding of some chunk fails, a
    chunk id is taken -- the tables are as they were.  When it returns, the
    document row has been appended, and behind the chunk table stand the
    records of its chunks: the chunks of [chunk_text] in order, numbered
    0, 1, 2, ... without a gap, each with the embedding of its own
    content. *)
Theorem add_large_document_whole (new_id : N) (chunk_id : nat -> N)
    (request : LargeDocumentRequest) (current_user : User) (vs : VStore) :
  let run := add_large_document new_id chunk_id request current_user vs in
  (forall e, fst run = Raise e -> snd run = vs) /\
  (forall id, fst run = Return id ->
     id = new_id /\
     embeddings (snd run) = embeddings vs /\
     (exists doc, documents (snd run) = documents vs ++ [doc] /\
        d_id doc = new_id /\ d_user_id doc = Some (u_id current_user) /\
        d_content doc = lr_content request /\
        d_size doc = Z.of_nat (String.length (lr_content request))) /\
     exists records,
       document_chunks (snd run) = document_chunks vs ++ records /\
       map c_content records = chunk_text_default (lr_content request) /\
       map c_chunk_index records = seq 0 (length records) /\
       Forall (fun r => c_document_id r = new_id /\
                        create_embedding (c_content r) = Some (c_embedding r))
              records).
Proof.
  intros run. unfold run, add_large_document.
  destruct (insert_row d_id _ (documents vs)) as [docs|] eqn:Ed; simpl;
    [|split; [reflexivity | discriminate]].
  destruct (chunk_records chunk_id new_id 0 _) as [records|] eqn:Er; simpl;
    [|split; [reflexivity | discriminate]].
  destruct (insert_rows c_id records (document_chunks vs)) as [chunks|] eqn:Ec;
    simpl; [|split; [reflexivity | discriminate]].
  split; [discriminate|]. intros id [= <-].
  apply insert_row_some in Ed as [-> _].
  apply insert_rows_some in Ec as ->.
  apply chunk_records_some in Er as (Hc & Hi & Hall).
  split; [reflexivity|]. split; [reflexivity|]. split.
  - eexists. split; [reflexivity|]. simpl. auto.
  - exists records. split; [reflexivity|]. split; [exact Hc|]. split.
    + rewrite Hi, <- Hc, length_map. reflexivity.
    + eapply Forall_impl; [exact Hall|]. simpl. intros r (? & _ & _ & ?). auto.
Qed.

Lemma length_list_ascii_of_string s :
  length (list_ascii_of_string s) = String.length s.
Proof. induction s as [|c s IH]; simpl; congruence. Qed.

(** [chunk_text_default] is the result of the loop: its [None] branch is
    not taken. *)
Lemma chunk_text_default_run content :
  exists chunks,
    (forall fuel, (String.length content < fuel)%nat ->
       chunk_text fuel (list_ascii_of_string content) 1000 200 = Some chunks) /\
    chunk_text_default content = map string_of_list_ascii chunks.
Proof.
  destruct (chunk_loop_terminates (list_ascii_of_string content) 1000 200
              ltac:(lia) ltac:(lia)
              (length (list_ascii_of_string content)) 0 [])
    as [r Hr]; [unfold len; lia|].
  rewrite length_list_ascii_of_string in Hr.
  exists r. split; [exact Hr|].
  unfold chunk_text_default, chunk_text. rewrite Hr by lia. reflexivity.
Qed.



(** X20: the chunk search raises on every call.  The statement of
    [search_document_chunks] has the placeholder [:embedding] in front of
    the cast [::vector], which [text] does not bind: whatever the request,
    the user and the tables, the route answers the 500 of a failed
    embedding or raises the [ProgrammingError] of [db.execute], and never
    returns a list. *)
Theorem search_document_chunks_raises (request : SearchRequest)
    (current_user : option User) (vs : VStore) :
  unbound_placeholder (chunk_search_statement current_user) = true /\
  search_document_chunks request current_user vs =
    match create_embedding (query request) with
    | None => Raise (HTTPException 500 "Failed to create embedding" false)
    | Some _ => Raise ProgrammingError
    end /\
  (forall results,
     search_document_chunks request current_user vs <> Return results).
Proof.
  assert (Hunbound :
    unbound_placeholder (chunk_search_statement current_user) = true)
    by (destruct current_user; vm_compute; reflexivity).
  assert (Hcases : search_document_chunks request current_user vs =
    match create_embedding (query request) with
    | None => Raise (HTTPException 500 "Failed to create embedding" false)
    | Some _ => Raise ProgrammingError
    end).
  { unfold search_document_chunks, embedding_failed.
    destruct (create_embedding (query request)); [|reflexivity].
    rewrite Hunbound. reflexivity. }
  split; [exact Hunbound|]. split; [exact Hcases|].
  intros results. rewrite Hcases.
  destruct (create_embedding (query request)); discriminate.
Qed.

Lemma get_current_user_optional_request now token s :
  request (get_current_user_optional now (Some token)) s =
  (match fst (request (get_current_user now token) s) with
   | Return user => Return (Some user)
   | Raise _ => Return None
   end, s).
Proof.
  pose proof (get_current_user_request now token s) as Hg.
  unfold request in *. unfold get_current_user_optional.
  destruct (get_current_user now token (mkDb s [] [])) as [[u|e] db'] eqn:E;
    simpl in *; injection Hg as Hr Hs; subst.
  - reflexivity.
  - destruct e as [c d h| | |]; [reflexivity | | |];
      destruct (jwt_decode now token) as [p|]; try discriminate;
      destruct (p_sub p); try discriminate;
      destruct (live now _); try discriminate;
      destruct (user_by_id _ _); discriminate.
Qed.

(** X6: [get_current_user_optional] never raises.  Whatever the
    credentials, the time and the tables, it returns and writes nothing:
    the user exactly when there are credentials whose token
    [get_current_user] accepts, and [None] otherwise -- in particular for a
    token that was logged out, and for an access token more than seven
    days old, where [get_current_user] answers 401. *)
Theorem get_current_user_optional_never_raises (now : datetime)
    (credentials : option string) (s : Store) :
  (exists current_user,
     request (get_current_user_optional now credentials) s
       = (Return current_user, s) /\
     forall user, current_user = Some user <->
       exists token, credentials = Some token /\
         fst (request (get_current_user now token) s) = Return user) /\
  (forall token,
     request (get_current_user_optional now (Some token))
             (snd (request (logout token) s))
       = (Return None, snd (request (logout token) s))) /\
  (forall t user,
     t + timedelta_minutes ACCESS_TOKEN_EXPIRE_MINUTES + 1000000 <= now ->
     request (get_current_user_optional now (Some (access_of t user))) s
       = (Return None, s)).
Proof.
  split; [|split].
  - destruct credentials as [token|].
    + rewrite get_current_user_optional_request.
      destruct (fst (request (get_current_user now token) s)) as [u|e] eqn:Eg.
      * exists (Some u). split; [reflexivity|]. intros user. split.
        -- intros [= <-]. exists token. split; [reflexivity | exact Eg].
        -- intros (token' & [= <-] & Hret). congruence.
      * exists None. split; [reflexivity|]. intros user. split.
        -- discriminate.
        -- intros (token' & [= <-] & Hret). congruence.
    + exists None. split; [reflexivity|]. intros user. split.
      * discriminate.
      * intros (token & Hcred & _). discriminate.
  - intros token. rewrite get_current_user_optional_request.
    rewrite logout_request. simpl.
    destruct (get_current_user_without_row now token
                (mkStore (users s) (delete token (sessions s))
                         (refresh_tokens s)))
      as (detail & hdr & Hraise); [simpl; apply lookup_delete_eq|].
    rewrite Hraise. reflexivity.
  - intros t user Hlate. rewrite get_current_user_optional_request.
    rewrite get_current_user_request.
    rewrite (jwt_decode_expired now (access_of t user)
               (mkPayload (Some (u_id user)) (Some (u_email user))
                  (Some (numeric_date
                     (t + timedelta_minutes ACCESS_TOKEN_EXPIRE_MINUTES)))
                  (Some "access"%string))
               (numeric_date
                  (t + timedelta_minutes ACCESS_TOKEN_EXPIRE_MINUTES)));
      [reflexivity | | reflexivity |].
    + unfold access_of, create_access_token. apply jws_verify_sign.
    + pose proof (numeric_date_next_second
                    (t + timedelta_minutes ACCESS_TOKEN_EXPIRE_MINUTES)
                    now 0 Hlate) as Hn.
      rewrite !Z.add_0_r in Hn. exact Hn.
Qed.

Lemma find_all_false {A} (f : A -> bool) (l : list A) :
  (forall x, x ∈ l -> f x = false) -> find f l = None.
Proof.
  induction l as [|y l IH]; intros Hall; simpl; [reflexivity|].
  rewrite (Hall y) by apply list_elem_of_here.
  apply IH. intros x Hx. apply Hall, list_elem_of_further, Hx.
Qed.

Lemma filter_other_keys {A} (key : A -> N) (table rows : list A) (k : N) :
  k ∉ map key table ->
  Forall (fun r => key r = k) rows ->
  List.filter (fun r => negb (N.eqb (key r) k)) (table ++ rows) = table.
Proof.
  intros Hnotin Hrows. rewrite List.filter_app.
  assert (Hgone : List.filter (fun r => negb (N.eqb (key r) k)) rows = []).
  { induction Hrows as [|r rows Hr _ IH]; simpl; [reflexivity|].
    rewrite Hr, N.eqb_refl. simpl. exact IH. }
  rewrite Hgone, app_nil_r.
  induction table as [|r table IH]; simpl; [reflexivity|].
  destruct (N.eqb_spec (key r) k) as [Heq|Hne]; simpl.
  - exfalso. apply Hnotin. simpl. rewrite Heq. apply list_elem_of_here.
  - f_equal. apply IH. intros Hin. apply Hnotin. simpl.
    apply list_elem_of_further, Hin.
Qed.

(** X24: [delete_large_document] takes the chunks with the document.  When
    it raises, the caller owns no document with that id and the tables are
    as they were.  When it returns, exactly the documents with that id and
    the chunks that belong to it are gone: every other document and every
    chunk of another document is still stored, the embeddings table is
    untouched, and no chunk is left without its document. *)
Theorem delete_large_document_cascade (document_id : N) (current_user : User)
    (vs : VStore) :
  let run := delete_large_document document_id current_user vs in
  (forall e, fst run = Raise e ->
     e = HTTPException 404 "Document not found" false /\ snd run = vs /\
     forall d, d ∈ documents vs -> d_id d = document_id ->
       d_user_id d <> Some (u_id current_user)) /\
  (forall msg, fst run = Return msg ->
     (forall d, d ∈ documents (snd run) <->
        d ∈ documents vs /\ d_id d <> document_id) /\
     (forall c, c ∈ document_chunks (snd run) <->
        c ∈ document_chunks vs /\ c_document_id c <> document_id) /\
     embeddings (snd run) = embeddings vs /\
     (chunks_have_parent vs -> chunks_have_parent (snd run))).
Proof.
  intros run. unfold run, delete_large_document.
  destruct (find _ (documents vs)) as [doc|] eqn:Ef; simpl.
  - split; [discriminate|]. intros msg _.
    apply find_some in Ef as [_ Hdoc].
    apply andb_prop in Hdoc as [Hid _]. apply N.eqb_eq in Hid. rewrite Hid.
    assert (Hdocs : forall d,
              d ∈ List.filter (fun d => negb (N.eqb (d_id d) document_id))
                    (documents vs) <->
              d ∈ documents vs /\ d_id d <> document_id).
    { intros d. rewrite !list_elem_of_In, filter_In, negb_true_iff, N.eqb_neq.
      reflexivity. }
    assert (Hchunks : forall c,
              c ∈ List.filter
                    (fun c => negb (N.eqb (c_document_id c) document_id))
                    (document_chunks vs) <->
              c ∈ document_chunks vs /\ c_document_id c <> document_id).
    { intros c. rewrite !list_elem_of_In, filter_In, negb_true_iff, N.eqb_neq.
      reflexivity. }
    split; [exact Hdocs|]. split; [exact Hchunks|]. split; [reflexivity|].
    intros Hparent c Hc. simpl in *. apply Hchunks in Hc as [Hc Hne].
    specialize (Hparent c Hc).
    apply list_elem_of_In, in_map_iff in Hparent as (d & Hd & Hin).
    apply list_elem_of_In, in_map_iff. exists d. split; [exact Hd|].
    apply list_elem_of_In, Hdocs. split; [apply list_elem_of_In, Hin|].
    congruence.
  - split; [|discriminate]. intros e [= <-].
    split; [reflexivity|]. split; [reflexivity|].
    intros d Hd Hid Hown.
    apply list_elem_of_In in Hd.
    pose proof (find_none _ _ Ef d Hd) as Hd'. simpl in Hd'.
    rewrite Hid, N.eqb_refl in Hd'. simpl in Hd'.
    apply bool_decide_eq_false in Hd'. contradiction.
Qed.

(** X25: storing and deleting a large document are inverse.  In tables
    where every chunk has its document, when [add_large_document] returns
    an id, every chunk still has its document; a [delete_large_document] of
    that id by another user is answered 404 and changes nothing, and by the
    owner it returns and leaves the tables as they were before the
    document was stored. *)
Theorem add_then_delete_large_document (new_id : N) (chunk_id : nat -> N)
    (request : LargeDocumentRequest) (owner other : User) (vs vs1 : VStore)
    (id : N) :
  chunks_have_parent vs ->
  u_id other <> u_id owner ->
  add_large_document new_id chunk_id request owner vs = (Return id, vs1) ->
  chunks_have_parent vs1 /\
  delete_large_document id other vs1 =
    (Raise (HTTPException 404 "Document not found" false), vs1) /\
  delete_large_document id owner vs1 =
    (Return "Document deleted successfully"%string, vs).
Proof.
  intros Hparent Hother. unfold add_large_document.
  destruct (insert_row d_id _ (documents vs)) as [docs|] eqn:Ed;
    [|discriminate].
  destruct (chunk_records chunk_id new_id 0 _) as [records|] eqn:Er;
    [|discriminate].
  destruct (insert_rows c_id records (document_chunks vs)) as [chunks|] eqn:Ec;
    [|discriminate].
  intros [= <- <-].
  apply insert_row_some in Ed as [-> Hfresh]. simpl in Hfresh.
  apply insert_rows_some in Ec as ->.
  apply chunk_records_some in Er as (_ & _ & Hall).
  assert (Hrecords : Forall (fun r => c_document_id r = new_id) records).
  { eapply Forall_impl; [exact Hall|]. intros r Hr. apply Hr. }
  assert (Hnochunk : new_id ∉ map c_document_id (document_chunks vs)).
  { intros Hin. apply list_elem_of_In, in_map_iff in Hin as (c & Hc & Hin).
    apply Hfresh. rewrite <- Hc. apply Hparent, list_elem_of_In, Hin. }
  assert (Hold : forall u,
            find (fun d => N.eqb (d_id d) new_id
                           && bool_decide (d_user_id d = Some (u_id u)))
                 (documents vs) = None).
  { intros u. apply find_all_false. intros d Hd.
    destruct (N.eqb_spec (d_id d) new_id) as [Heq|Hne]; [|reflexivity].
    exfalso. apply Hfresh. rewrite <- Heq.
    apply list_elem_of_In, in_map, list_elem_of_In, Hd. }
  split; [|split].
  - intros c Hc. simpl in *. rewrite map_app.
    apply list_elem_of_In, in_app_iff in Hc as [Hc | Hc];
      apply list_elem_of_In, in_app_iff.
    + left. apply list_elem_of_In, Hparent, list_elem_of_In, Hc.
    + right. rewrite Forall_forall in Hrecords.
      rewrite (Hrecords c) by apply list_elem_of_In, Hc. simpl. auto.
  - unfold delete_large_document. simpl.
    rewrite (find_app_none _ _ _ (Hold other)). simpl.
    rewrite N.eqb_refl. simpl.
    rewrite bool_decide_eq_false_2 by congruence. reflexivity.
  - unfold delete_large_document. simpl.
    rewrite (find_app_none _ _ _ (Hold owner)). simpl.
    rewrite N.eqb_refl. simpl.
    rewrite bool_decide_eq_true_2 by reflexivity. simpl.
    rewrite (filter_other_keys d_id (documents vs) [_] new_id Hfresh)
      by (constructor; [reflexivity | constructor]).
    rewrite (filter_other_keys c_document_id (document_chunks vs) records
               new_id Hnochunk Hrecords).
    destruct vs; reflexivity.
Qed.

End DocumentsFacts.

(* ===================================================================== *)
(** * Properties of the query filter and of the Chroma filter             *)
(* ===================================================================== *)

Section DbRoutesFacts.

Import Chunker DbRoutes.

Lemma startswith_app p t : startswith p (p ++ t) = true.
Proof.
  induction p as [|x p IH]; simpl; [reflexivity|].
  rewrite Ascii.eqb_refl. exact IH.
Qed.

Lemma contains_startswith p t : startswith p t = true -> contains p t = true.
Proof. intros Hs. destruct t; simpl; rewrite Hs; reflexivity. Qed.

Lemma contains_app p a b : contains p (a ++ p ++ b) = true.
Proof.
  induction a as [|x a IH]; simpl.
  - apply contains_startswith, startswith_app.
  - rewrite IH. apply orb_true_r.
Qed.

Lemma lstrip_app_word a x k b :
  isspace x = false ->
  exists a', lstrip (a ++ (x :: k) ++ b) = a' ++ (x :: k) ++ b.
Proof.
  intros Hx. induction a as [|y a (a' & IH)]; simpl.
  - exists []. rewrite Hx. reflexivity.
  - destruct (isspace y).
    + exists a'. exact IH.
    + exists (y :: a). reflexivity.
Qed.

(** A word that neither begins nor ends with white space survives
    [strip]. *)
Lemma strip_app_word a w b x y k :
  w = x :: k -> last w = Some y ->
  isspace x = false -> isspace y = false ->
  exists a' b', strip (a ++ w ++ b) = a' ++ w ++ b'.
Proof.
  intros Hw Hlast Hx Hy. unfold strip, rstrip.
  destruct (lstrip_app_word a x k b Hx) as (a' & Ha).
  rewrite Hw, Ha, <- Hw.
  apply last_Some in Hlast as (k' & Hk).
  assert (Hrev : rev (a' ++ w ++ b) = rev b ++ (y :: rev k') ++ rev a').
  { rewrite !rev_app_distr, Hk, rev_app_distr, <- app_assoc. reflexivity. }
  rewrite Hrev.
  destruct (lstrip_app_word (rev b) y (rev k') (rev a') Hy) as (b' & Hb).
  rewrite Hb. exists a', (rev b').
  rewrite !rev_app_distr, rev_involutive. simpl.
  rewrite rev_involutive, <- Hk, <- app_assoc. reflexivity.
Qed.

Lemma contains_stripped a w b x y k :
  w = x :: k -> last w = Some y ->
  isspace x = false -> isspace y = false ->
  contains w (strip (a ++ w ++ b)) = true.
Proof.
  intros Hw Hl Hx Hy.
  destruct (strip_app_word a w b x y k Hw Hl Hx Hy) as (a' & b' & ->).
  apply contains_app.
Qed.

(** X22: what [validate_query] never lets through.  A query in which the
    word [drop] or [truncate] occurs, in any mix of upper and lower case
    and at any place -- a keyword, part of a longer name, inside a quoted
    string --, is refused; and so is every query that mentions [auth.] in
    any case, unless it begins with [select]. *)
Theorem validate_query_refuses (pre word post : text) :
  (lower word = list_ascii_of_string "drop" \/
   lower word = list_ascii_of_string "truncate" ->
   validate_query (pre ++ word ++ post) = false) /\
  (lower word = list_ascii_of_string "auth." ->
   startswith (list_ascii_of_string "select")
              (strip (lower (pre ++ word ++ post))) = false ->
   validate_query (pre ++ word ++ post) = false).
Proof.
  unfold validate_query, lower. rewrite !map_app.
  fold (lower pre) (lower word) (lower post). split.
  - intros Hword.
    replace (existsb _ dangerous_keywords) with true; [reflexivity|].
    symmetry. apply existsb_exists. exists (lower word). split.
    + destruct Hword as [-> | ->]; unfold dangerous_keywords; simpl; auto.
    + destruct Hword as [Hw | Hw]; rewrite Hw;
        eapply contains_stripped; reflexivity.
  - intros Hword Hsel. destruct (existsb _ dangerous_keywords); [reflexivity|].
    rewrite Hsel, Hword.
    erewrite contains_stripped; reflexivity.
Qed.

End DbRoutesFacts.

Section ChromaFacts.

Import Chroma.

Lemma eq_filter_operator v :
  {[ "$eq"%string := v ]} <> (∅ : gmap string value) /\
  has_operator {[ "$eq"%string := v ]} = true.
Proof.
  split; [apply map_non_empty_singleton|].
  unfold has_operator. apply bool_decide_eq_true.
  exists "$eq"%string, v. split; [apply lookup_singleton_eq | reflexivity].
Qed.

(** What the loop stores under a key: always a non-empty dictionary with an
    operator among its keys. *)
Lemma format_value_operator v v' :
  format_value v = Some v' ->
  exists d, v' = VDict d /\ d <> ∅ /\ has_operator d = true.
Proof.
  destruct v as [|s|d]; simpl.
  - discriminate.
  - intros [= <-]. eexists. split; [reflexivity|]. apply eq_filter_operator.
  - destruct (bool_decide (d = ∅)) eqn:Ee; [discriminate|].
    apply bool_decide_eq_false in Ee.
    destruct (has_operator d) eqn:Eo; intros [= <-].
    + exists d. auto.
    + eexists. split; [reflexivity|]. apply eq_filter_operator.
Qed.

Lemma format_value_fixed v v' :
  format_value v = Some v' -> format_value v' = Some v'.
Proof.
  intros Hv. apply format_value_operator in Hv as (d & -> & Hne & Hop).
  simpl. rewrite bool_decide_eq_false_2 by exact Hne. rewrite Hop. reflexivity.
Qed.

Lemma omap_format_value_twice (d : gmap string value) :
  omap format_value (omap format_value d) = omap format_value d.
Proof.
  apply map_eq. intros k. rewrite !lookup_omap.
  destruct (d !! k) as [v|]; simpl; [|reflexivity].
  destruct (format_value v) as [v'|] eqn:E; simpl; [|reflexivity].
  exact (format_value_fixed v v' E).
Qed.

(** X23: [format_chroma_filter] gives Chroma filters and is idempotent.
    It never returns an empty dictionary ([None] instead); under every key
    of a returned filter stands a non-empty dictionary with an operator
    key, [{"$eq": v}] where the input had none; a key is left out exactly
    when its value is [None] or the empty dictionary; and formatting a
    formatted filter changes nothing. *)
Theorem format_chroma_filter_idempotent (filter_dict : option (gmap string value)) :
  format_chroma_filter (format_chroma_filter filter_dict)
    = format_chroma_filter filter_dict /\
  (forall f, format_chroma_filter filter_dict = Some f ->
     f <> ∅ /\
     (forall k v, f !! k = Some v ->
        exists d, v = VDict d /\ d <> ∅ /\ has_operator d = true) /\
     (forall k, f !! k = None <->
        exists d, filter_dict = Some d /\
          (d !! k = None \/ d !! k = Some VNone \/ d !! k = Some (VDict ∅)))).
Proof.
  split.
  - destruct filter_dict as [d|]; simpl; [|reflexivity].
    destruct (bool_decide (d = ∅)); simpl; [reflexivity|].
    destruct (bool_decide (omap format_value d = ∅)) eqn:E; simpl;
      [reflexivity|].
    rewrite E, omap_format_value_twice, E. reflexivity.
  - intros f Hf. destruct filter_dict as [d|]; simpl in Hf; [|discriminate].
    destruct (bool_decide (d = ∅)); [discriminate|].
    destruct (bool_decide (omap format_value d = ∅)) eqn:E; [discriminate|].
    injection Hf as <-. apply bool_decide_eq_false in E.
    split; [exact E|]. split.
    + intros k v Hk. rewrite lookup_omap in Hk.
      destruct (d !! k) as [v0|]; simpl in Hk; [|discriminate].
      exact (format_value_operator v0 v Hk).
    + intros k. rewrite lookup_omap. split.
      * intros Hk. exists d. split; [reflexivity|].
        destruct (d !! k) as [v0|]; simpl in Hk; [|auto].
        destruct v0 as [|s|d0]; simpl in Hk; [auto | discriminate |].
        destruct (bool_decide (d0 = ∅)) eqn:E0.
        -- apply bool_decide_eq_true in E0. subst. auto.
        -- destruct (has_operator d0); discriminate.
      * intros (d' & [= <-] & [Hk | [Hk | Hk]]); rewrite Hk; simpl;
          [reflexivity | reflexivity |].
        rewrite bool_decide_eq_true_2 by reflexivity. reflexivity.
Qed.

End ChromaFacts.

(* ===================================================================== *)
(** * The further properties on the example data                          *)
(* ===================================================================== *)

Section MoreScenario.

Import Chunker Pieces Auth AuthMore Search Documents DbRoutes Chroma Examples.

#[local] Existing Instances bits_codec plain_hasher.

(** The sign-up of the first account, with the store it leaves. *)
Lemma sign_up_alice_request :
  request (sign_up t0 1%N 7%N "a@x.com" "pw1" None) empty_store
    = (Return (issued t0 alice), store1).
Proof.
  apply injective_projections; simpl.
  - vm_compute. reflexivity.
  - unfold store1. reflexivity.
Qed.

(** The first account's access token, a minute after its issue. *)
Lemma alice_validated :
  request (get_current_user (t0 + one_minute) (access_of t0 alice)) store1
    = (Return alice, store1).
Proof.
  rewrite get_current_user_request.
  apply injective_projections; simpl; [vm_compute|]; reflexivity.
Qed.

Lemma consistent_empty_store : consistent empty_store.
Proof.
  unfold consistent, empty_store. simpl.
  repeat split; try constructor; intros t r Hr;
    rewrite lookup_empty in Hr; discriminate.
Qed.

Lemma sign_up_then_validate_witness :
  request (get_current_user (t0 + one_minute) (r_token (issued t0 alice)))
          store1
    = (Return (new_user t0 1%N 7%N "a@x.com" "pw1" None), store1).
Proof.
  apply (sign_up_then_validate t0 1%N 7%N "a@x.com" "pw1" None
           empty_store store1 (issued t0 alice) (t0 + one_minute)).
  - exact sign_up_alice_request.
  - vm_compute. reflexivity.
Defined.

Lemma sign_up_twice_witness :
  request (sign_up (t0 + one_minute) 2%N 9%N "a@x.com" "pw2" None) store1
    = (Raise (HTTPException 400 "User already exists" false), store1).
Proof.
  apply (sign_up_twice t0 1%N 7%N "a@x.com" "pw1" None
           empty_store store1 (issued t0 alice)).
  exact sign_up_alice_request.
Defined.

(** The store after the first sign-up is consistent. *)
Lemma auth_requests_keep_consistent_witness :
  consistent (snd (request (sign_up t0 1%N 7%N "a@x.com" "pw1" None)
                           empty_store)).
Proof.
  destruct (auth_requests_keep_consistent empty_store consistent_empty_store)
    as [Hsign_up _].
  exact (Hsign_up t0 1%N 7%N "a@x.com"%string "pw1"%string None).
Defined.

(** A week-old access token and a month-old refresh token of the first
    account. *)
Lemma tokens_expire_witness :
  request (get_current_user (t0 + timedelta_days 8) (access_of t0 alice))
          store1
    = (Raise (HTTPException 401 "Could not validate credentials" true),
       store1) /\
  request (refresh_access_token (t0 + timedelta_days 31) (refresh_of t0 alice))
          store1
    = (Raise (HTTPException 401 "Could not validate credentials" true),
       store1).
Proof.
  destruct (tokens_expire t0 (t0 + timedelta_days 8) alice store1)
    as [Haccess _].
  destruct (tokens_expire t0 (t0 + timedelta_days 31) alice store1)
    as [_ Hrefresh].
  split; [apply Haccess | apply Hrefresh]; vm_compute; discriminate.
Defined.

(** The first account's session after the second sign-in of the account. *)
Lemma sessions_survive_witness :
  fst (request (get_current_user (t0 + one_minute) (access_of t0 alice))
         (snd (request (sign_in (t0 + one_minute) "a@x.com" "pw1") store1)))
    = Return alice.
Proof.
  destruct (sessions_survive store1 (t0 + one_minute) (access_of t0 alice)
              alice alice_validated) as (_ & Hsign_in & _).
  exact (Hsign_in (t0 + one_minute) "a@x.com"%string "pw1"%string).
Defined.

Lemma dict_merge_get_witness :
  dict_get "theme" (dict_merge [("theme", "light"); ("lang", "en")] dark_theme)
    = Some "dark"%string /\
  dict_get "lang" (dict_merge [("theme", "light"); ("lang", "en")] dark_theme)
    = Some "en"%string.
Proof.
  assert (Hkeys : NoDup (map fst dark_theme)).
  { simpl. apply NoDup_singleton. }
  split.
  - exact (dict_merge_get [("theme", "light"); ("lang", "en")]%string
             dark_theme "theme" Hkeys).
  - exact (dict_merge_get [("theme", "light"); ("lang", "en")]%string
             dark_theme "lang" Hkeys).
Defined.

(** The first account sets its theme, under its own id and under the id of
    the second account. *)
Lemma update_user_metadata_own_row_witness :
  request (update_user_metadata (t0 + one_minute) (access_of t0 alice)
             (Some 2%N) dark_theme) store1
    = (Raise (HTTPException 403 "Cannot update other user's metadata" false),
       store1) /\
  fst (request (update_user_metadata (t0 + one_minute) (access_of t0 alice)
                  (Some 1%N) dark_theme) store1)
    = Return (user_view (with_metadata (t0 + one_minute) alice dark_theme)) /\
  u_updated_at (with_metadata (t0 + one_minute) alice dark_theme)
    = t0 + one_minute /\
  with_metadata (t0 + one_minute) alice [] = alice.
Proof.
  split; [|split; [|split]].
  - pose proof (update_user_metadata_own_row (t0 + one_minute)
                  (access_of t0 alice) (Some 2%N) dark_theme store1 alice
                  alice_validated) as Hrow.
    cbv zeta in Hrow. destruct Hrow as [Hother _].
    apply Hother. vm_compute. discriminate.
  - pose proof (update_user_metadata_own_row (t0 + one_minute)
                  (access_of t0 alice) (Some 1%N) dark_theme store1 alice
                  alice_validated) as Hrow.
    cbv zeta in Hrow. destruct Hrow as [_ Hown].
    apply Hown. vm_compute. reflexivity.
  - pose proof (update_user_metadata_own_row (t0 + one_minute)
                  (access_of t0 alice) (Some 1%N) dark_theme store1 alice
                  alice_validated) as Hrow.
    cbv zeta in Hrow. destruct Hrow as [_ Hown].
    apply Hown; [vm_compute; reflexivity | vm_compute; discriminate].
  - pose proof (update_user_metadata_own_row (t0 + one_minute)
                  (access_of t0 alice) (Some 1%N) [] store1 alice
                  alice_validated) as Hrow.
    cbv zeta in Hrow. destruct Hrow as [_ Hown].
    apply Hown; vm_compute; reflexivity.
Defined.

(** ** The chunking engine *)

Lemma chunk_text_sentences :
  chunk_text 20 sentences 8 2
    = Some (map list_ascii_of_string ["One. Two"; "wo. Thre"; "ree."]%string).
Proof. vm_compute. reflexivity. Qed.

(** The second chunk of the sentences. *)
Lemma chunk_text_well_cut_witness :
  second_chunk <> [] /\
  (exists pre post, sentences = pre ++ second_chunk ++ post) /\
  (forall x, head second_chunk = Some x -> isspace x = false) /\
  (forall x, last second_chunk = Some x -> isspace x = false).
Proof.
  apply (chunk_text_well_cut 20 sentences 8 2
           (map list_ascii_of_string ["One. Two"; "wo. Thre"; "ree."]%string)).
  - vm_compute. reflexivity.
  - apply list_elem_of_further, list_elem_of_here.
Defined.

Lemma chunk_text_bounded_witness : Z.of_nat (length second_chunk) <= 8.
Proof.
  apply (chunk_text_bounded 20 sentences 8 2
           (map list_ascii_of_string ["One. Two"; "wo. Thre"; "ree."]%string));
    [lia | lia | |].
  - vm_compute. reflexivity.
  - apply list_elem_of_further, list_elem_of_here.
Defined.

Lemma chunk_text_blank_witness :
  chunk_text 4 (list_ascii_of_string blank_line) 1000 200 = Some [].
Proof.
  apply (chunk_text_blank (list_ascii_of_string blank_line)).
  - repeat constructor.
  - simpl. lia.
Defined.

Lemma chunk_text_short_witness :
  chunk_text 2 (list_ascii_of_string " A memo. ") 1000 200
    = Some [strip (list_ascii_of_string " A memo. ")].
Proof.
  apply (chunk_text_short 0 (list_ascii_of_string " A memo. ") 1000 200).
  - lia.
  - unfold len. simpl. lia.
  - vm_compute. discriminate.
Defined.

(** The [T] of [Two], at position 5 of the sentences. *)
Lemma chunk_text_covers_witness :
  exists s e, 0 <= s <= Z.of_nat 5 /\ Z.of_nat 5 < e /\
    strip (slice sentences s e)
      ∈ map list_ascii_of_string ["One. Two"; "wo. Thre"; "ree."]%string /\
    "T"%char ∈ strip (slice sentences s e).
Proof.
  apply (chunk_text_covers 20 sentences 8 2); try lia;
    vm_compute; reflexivity.
Defined.

(** ** The document routes *)

(** The first account asks for the document of the second. *)
Lemma delete_document_own_rows_witness :
  delete_document 2 alice vstore1
    = (Raise (HTTPException 404 "Document not found" false), vstore1).
Proof.
  assert (Hids : NoDup (map e_id (embeddings vstore1))).
  { simpl. refine (bool_decide_unpack _ _). vm_compute. exact I. }
  destruct (delete_document_own_rows 2 alice vstore1 Hids) as [_ Hnone].
  apply Hnone. intros row Hrow Hid.
  apply list_elem_of_In in Hrow. simpl in Hrow.
  destruct Hrow as [<- | [<- | []]]; simpl in *; [discriminate|].
  vm_compute. discriminate.
Defined.

Lemma add_then_delete_document_witness :
  let doc := mkEmbedding 3 (Some (u_id alice)) (dr_content note_request)
               [1%Q; 0%Q] (dr_metadata note_request) in
  let vs1 := mkVStore (embeddings vstore1 ++ [doc]) (documents vstore1)
               (document_chunks vstore1) in
  @add_document insertion_engine 3 note_request alice vstore1
    = (Return 3%N, vs1) /\
  delete_document 3 bob vs1
    = (Raise (HTTPException 404 "Document not found" false), vs1) /\
  delete_document 3 alice vs1
    = (Return "Document deleted successfully"%string, vstore1).
Proof.
  apply (@add_then_delete_document insertion_engine 3 note_request alice bob
           vstore1 [1%Q; 0%Q]).
  - reflexivity.
  - simpl. refine (bool_decide_unpack _ _). vm_compute. exact I.
  - vm_compute. discriminate.
Defined.

(** A memo of one chunk, stored beside the report. *)
Lemma add_large_document_whole_witness :
  let run := @add_large_document insertion_engine 20
               (fun i => N.of_nat (30 + i)) memo_request alice vstore2 in
  fst run = Return 20%N /\
  exists records,
    document_chunks (snd run) = document_chunks vstore2 ++ records /\
    map c_content records = chunk_text_default (lr_content memo_request) /\
    map c_chunk_index records = seq 0 (length records).
Proof.
  pose proof (@add_large_document_whole insertion_engine 20
                (fun i => N.of_nat (30 + i)) memo_request alice vstore2)
    as Hwhole.
  cbv zeta in *. destruct Hwhole as [_ Hreturn].
  assert (Hrun : fst (@add_large_document insertion_engine 20
                        (fun i => N.of_nat (30 + i)) memo_request alice
                        vstore2) = Return 20%N)
    by (vm_compute; reflexivity).
  split; [exact Hrun|].
  destruct (Hreturn 20%N Hrun)
    as (_ & _ & _ & records & Hchunks & Hcontent & Hindex & _).
  exists records. auto.
Defined.


(** The chunks of the report, searched by the first account. *)
Lemma search_document_chunks_raises_witness :
  @search_document_chunks insertion_engine tie_request (Some alice) vstore2
    = Raise ProgrammingError.
Proof.
  destruct (@search_document_chunks_raises insertion_engine tie_request
              (Some alice) vstore2) as (_ & Hcases & _).
  exact Hcases.
Defined.

(** A week-old token of the first account, as optional credentials. *)
Lemma get_current_user_optional_never_raises_witness :
  request (get_current_user_optional (t0 + timedelta_days 8)
             (Some (access_of t0 alice))) store1
    = (Return None, store1).
Proof.
  destruct (get_current_user_optional_never_raises (t0 + timedelta_days 8)
              (Some (access_of t0 alice)) store1) as (_ & _ & Hexpired).
  apply Hexpired. vm_compute. discriminate.
Defined.

Lemma chunks_have_parent_vstore2 : chunks_have_parent vstore2.
Proof.
  intros c Hc. apply list_elem_of_In in Hc. simpl in Hc.
  destruct Hc as [<- | [<- | []]]; simpl;
    refine (bool_decide_unpack _ _); vm_compute; exact I.
Qed.

(** The first account deletes the report. *)
Lemma delete_large_document_cascade_witness :
  chunk_one ∈ document_chunks (snd (delete_large_document 10 alice vstore2))
  <-> chunk_one ∈ document_chunks vstore2 /\ c_document_id chunk_one <> 10%N.
Proof.
  pose proof (delete_large_document_cascade 10 alice vstore2) as Hcascade.
  cbv zeta in Hcascade. destruct Hcascade as [_ Hreturn].
  destruct (Hreturn "Document deleted successfully"%string)
    as (_ & Hchunks & _); [vm_compute; reflexivity|].
  exact (Hchunks chunk_one).
Defined.

(** The memo is stored beside the report and deleted again. *)
Lemma add_then_delete_large_document_witness :
  let vs1 := snd (@add_large_document insertion_engine 20
                    (fun i => N.of_nat (30 + i)) memo_request alice vstore2) in
  chunks_have_parent vs1 /\
  delete_large_document 20 bob vs1 =
    (Raise (HTTPException 404 "Document not found" false), vs1) /\
  delete_large_document 20 alice vs1 =
    (Return "Document deleted successfully"%string, vstore2).
Proof.
  apply (@add_then_delete_large_document insertion_engine 20
           (fun i => N.of_nat (30 + i)) memo_request alice bob vstore2).
  - exact chunks_have_parent_vstore2.
  - vm_compute. discriminate.
  - apply injective_projections; simpl; [vm_compute|]; reflexivity.
Defined.

(** ** The query guard and the filter *)

Lemma validate_query_refuses_witness :
  validate_query (drop_pre ++ drop_word ++ drop_post) = false.
Proof.
  destruct (validate_query_refuses drop_pre drop_word drop_post)
    as [Hdrop _].
  apply Hdrop. left. vm_compute. reflexivity.
Defined.

Lemma format_chroma_filter_idempotent_witness :
  exists f, format_chroma_filter (Some sample_filter) = Some f /\
    f <> ∅ /\
    f !! "draft"%string = None /\
    format_chroma_filter (Some f) = Some f.
Proof.
  destruct (format_chroma_filter (Some sample_filter)) as [f|] eqn:Hf;
    [|vm_compute in Hf; discriminate].
  exists f. split; [reflexivity|].
  destruct (format_chroma_filter_idempotent (Some sample_filter))
    as [Hidem Hshape].
  rewrite Hf in Hidem.
  destruct (Hshape f Hf) as (Hne & _ & Hnone).
  split; [exact Hne|]. split.
  - apply Hnone. exists sample_filter. split; [reflexivity|].
    right. left. vm_compute. reflexivity.
  - exact Hidem.
Defined.

End MoreScenario.
